(** * wellplayer-scraper-backend: the /search relay of server.js

    A shallow embedding of [src/server.js]: an Express application with the
    [cors()] middleware and one route, [GET /search], that forwards the
    [query] parameter to the TMDB search endpoint with [node-fetch] and
    relays the decoded JSON document.

    The embedding keeps the data of the program as JavaScript has it:
    strings are sequences of UTF-16 code units, [req.query] and the headers
    of requests and responses are finite maps, numbers are binary64 values,
    and the handler is written in a small state-and-exception monad whose
    state records the response object, the responses put on the wire and
    the outbound calls.

    [res.json] is followed into Express: the document is serialised by
    [JSON.stringify] and sent by [res.send], which answers a fresh
    conditional request with 304 and no body. The decimal digits of
    Number::toString and the ETag function are parameters of the
    development ([Runtime]); the examples run with [sample_runtime]. *)

From Stdlib Require Import ZArith NArith List String Ascii SpecFloat Lia.
From Stdlib Require Import DecimalString.
From stdpp Require Import base option gmap strings list.

Set Warnings "-register-all".
Local Open Scope N_scope.

(** ** JavaScript strings *)

(** A JavaScript string is a finite sequence of 16-bit code units. *)
Definition jsstring : Type := list N.

(** String literals of the source are ASCII; [js] spells one out as code
    units. *)
Definition js (s : string) : jsstring :=
  N_of_ascii <$> list_ascii_of_string s.

(** The code units are 16 bits wide. *)
Definition code_units_ok (s : jsstring) : Prop :=
  Forall (fun c => c < 65536) s.

(** ** Errors and promises *)

(** The exceptions that can reach the handler's [catch]: the two the
    ECMAScript coercions raise, the two [node-fetch] rejects with, and the
    one Node raises on writing a response twice. *)
Inductive Error : Type :=
| URIError
| TypeError
| FetchError
| SyntaxError
| ERR_HTTP_HEADERS_SENT.

(** The eventual state of a promise: it is fulfilled, it is rejected, or
    it never settles ([fetch] is called without a timeout). *)
Inductive Promise (A : Type) : Type :=
| Fulfilled (a : A)
| Rejected (e : Error)
| Pending.
Arguments Fulfilled {A} a.
Arguments Rejected {A} e.
Arguments Pending {A}.

(** ** encodeURIComponent (ECMA-262, Encode) *)

Module URI.

(** [A-Z a-z 0-9 _] and the marks [- . ! ~ * ' ( )]: the code units that
    [encodeURIComponent] leaves as they are. *)
Definition unescaped (c : N) : bool :=
  ((65 <=? c) && (c <=? 90)) || ((97 <=? c) && (c <=? 122))
  || ((48 <=? c) && (c <=? 57))
  || bool_decide (c ∈ [45; 95; 46; 33; 126; 42; 39; 40; 41]).

Definition is_leading_surrogate (c : N) : bool :=
  (0xD800 <=? c) && (c <=? 0xDBFF).

Definition is_trailing_surrogate (c : N) : bool :=
  (0xDC00 <=? c) && (c <=? 0xDFFF).

(** UTF16SurrogatePairToCodePoint *)
Definition surrogate_pair_to_code_point (lead trail : N) : N :=
  (lead - 0xD800) * 0x400 + (trail - 0xDC00) + 0x10000.

(** The UTF-8 octets of a code point. *)
Definition utf8 (cp : N) : list N :=
  if cp <? 0x80 then [cp]
  else if cp <? 0x800 then
    [N.lor 0xC0 (N.shiftr cp 6); N.lor 0x80 (N.land cp 0x3F)]
  else if cp <? 0x10000 then
    [N.lor 0xE0 (N.shiftr cp 12);
     N.lor 0x80 (N.land (N.shiftr cp 6) 0x3F);
     N.lor 0x80 (N.land cp 0x3F)]
  else
    [N.lor 0xF0 (N.shiftr cp 18);
     N.lor 0x80 (N.land (N.shiftr cp 12) 0x3F);
     N.lor 0x80 (N.land (N.shiftr cp 6) 0x3F);
     N.lor 0x80 (N.land cp 0x3F)].

(** An uppercase hexadecimal digit, as a code unit. *)
Definition hex_digit (d : N) : N :=
  if d <? 10 then 48 + d else 55 + d.

(** ["%XX"] for one octet. *)
Definition percent (octet : N) : jsstring :=
  [37; hex_digit (octet / 16); hex_digit (octet mod 16)].

Definition escape (cp : N) : jsstring :=
  concat (percent <$> utf8 cp).

(** The loop of Encode: an unescaped unit is copied, any other code
    point is written as its escaped UTF-8 octets, and an unpaired
    surrogate raises [URIError]. *)
Fixpoint Encode (s : jsstring) : Error + jsstring :=
  match s with
  | [] => inr []
  | c :: rest =>
      if unescaped c then
        match Encode rest with inr r => inr (c :: r) | inl e => inl e end
      else if is_trailing_surrogate c then inl URIError
      else if is_leading_surrogate c then
        match rest with
        | [] => inl URIError
        | second :: rest' =>
            if is_trailing_surrogate second then
              match Encode rest' with
              | inr r =>
                  inr (escape (surrogate_pair_to_code_point c second) ++ r)
              | inl e => inl e
              end
            else inl URIError
        end
      else
        match Encode rest with
        | inr r => inr (escape c ++ r)
        | inl e => inl e
        end
  end.

End URI.

(** ** Values *)

(** What the query parser leaves in [req.query]: strings, arrays and
    plain objects with string keys, nested at will. *)
Inductive QueryValue : Type :=
| QString (s : jsstring)
| QArray (items : list QueryValue)
| QObject (props : gmap jsstring QueryValue).

(** The values [JSON.parse] returns and [res.json] serialises. A number
    is a binary64 value; an object keeps its keys in order. *)
Inductive Value : Type :=
| VNull
| VBool (b : bool)
| VNumber (x : spec_float)
| VString (s : jsstring)
| VArray (items : list Value)
| VObject (props : list (jsstring * Value)).

(** The binary64 value of an integer literal of the source. *)
Definition Number_of_Z (z : Z) : spec_float :=
  binary_normalize 53 1024 z 0 false.

(** [!x] is [negb (ToBoolean x)]; [None] is [undefined]. Every object,
    an empty array included, is truthy. *)
Definition ToBoolean (v : option QueryValue) : bool :=
  match v with
  | None => false
  | Some (QString []) => false
  | Some (QString (_ :: _)) => true
  | Some (QArray _) => true
  | Some (QObject _) => true
  end.

(** ToString on the values of [req.query]. A string is itself. An array
    goes through [Array.prototype.join]: the strings of its elements with
    commas between them. An object goes through OrdinaryToPrimitive: with
    an own property [toString] (a parsed value, never callable) neither
    [toString] nor [valueOf] yields a primitive and [TypeError] is raised;
    without one [Object.prototype.toString] answers. *)
Fixpoint ToString (v : QueryValue) : Error + jsstring :=
  match v with
  | QString s => inr s
  | QArray items =>
      (fix join (l : list QueryValue) : Error + jsstring :=
         match l with
         | [] => inr []
         | x :: l' =>
             match ToString x with
             | inl e => inl e
             | inr s =>
                 match l' with
                 | [] => inr s
                 | _ :: _ =>
                     match join l' with
                     | inl e => inl e
                     | inr r => inr (s ++ js "," ++ r)
                     end
                 end
             end
         end) items
  | QObject props =>
      match props !! js "toString" with
      | Some _ => inl TypeError
      | None => inr (js "[object Object]")
      end
  end.

(** [encodeURIComponent(x)]: ToString, then Encode. *)
Definition encodeURIComponent (x : option QueryValue) : Error + jsstring :=
  match x with
  | None => URI.Encode (js "undefined")
  | Some v =>
      match ToString v with
      | inl e => inl e
      | inr s => URI.Encode s
      end
  end.

(** ** The process: configuration read at startup *)

(** The two module-level constants of server.js. [PORT] is what
    [app.listen] is called with: a string from the environment or the
    number 3000. *)
Record Service : Type := {
  TMDB_API_KEY : jsstring;
  PORT : Value
}.

(** [process.env.NAME || fallback]: the variable when it is set to a
    truthy (non-empty) string, the fallback otherwise. *)
Definition env_or {A : Type} (env : gmap jsstring jsstring) (name : string)
    (of_string : jsstring -> A) (fallback : A) : A :=
  match env !! js name with
  | Some (c :: s) => of_string (c :: s)
  | Some [] => fallback
  | None => fallback
  end.

Definition default_key : jsstring := js "f81af962f969df1a8bebbb9f6b7f17b7".

Definition startup (env : gmap jsstring jsstring) : Service :=
  {| TMDB_API_KEY := env_or env "TMDB_API_KEY" id default_key;
     PORT := env_or env "PORT" VString (VNumber (Number_of_Z 3000)) |}.

(** ** The engine and the framework, as far as they are taken as given *)

(** Two functions of the platform are parameters of the development:
    the decimal rendering of a finite non-zero number (the digits that
    Number::toString chooses for the magnitude [m * 2^e]), and the ETag
    function of the application (Express's default is a weak tag made of
    the length and a SHA-1 digest of the body). *)
Class Runtime : Type := {
  Number_digits : positive -> Z -> jsstring;
  etag_fn : jsstring -> string
}.

(** ** Conditional requests: the freshness test of Express *)

Module Fresh.

(** The white space of a regular expression's [\s] among the code units a
    header value can hold. *)
Definition is_space (c : ascii) : bool :=
  bool_decide (N_of_ascii c ∈ [9; 10; 11; 12; 13; 32; 160]).

Fixpoint drop_spaces (s : list ascii) : list ascii :=
  match s with
  | c :: rest => if is_space c then drop_spaces rest else s
  | [] => []
  end.

(** The elements of a header value between its commas. *)
Fixpoint split_commas (s : list ascii) (current : list ascii)
    : list (list ascii) :=
  match s with
  | [] => [current]
  | c :: rest =>
      if bool_decide (c = ","%char) then current :: split_commas rest []
      else split_commas rest (current ++ [c])
  end.

(** [/(?:^|,)\s*?no-cache\s*?(?:,|$)/.test(value)]: some element between
    commas is [no-cache], white space around it aside. *)
Definition has_no_cache (value : string) : bool :=
  existsb
    (fun element =>
       bool_decide
         (rev (drop_spaces (rev (drop_spaces element)))
          = list_ascii_of_string "no-cache"))
    (split_commas (list_ascii_of_string value) []).

(** [parseTokenList]: the loop over the characters with its [start] and
    [end] marks, then the final token. *)
Fixpoint parseTokenList_loop (str : string) (chars : list ascii)
    (i start end_ : nat) (tokens : list string) : list string :=
  match chars with
  | [] => tokens ++ [substring start (end_ - start) str]
  | c :: rest =>
      if bool_decide (c = " "%char) then
        if (start =? end_)%nat
        then parseTokenList_loop str rest (S i) (S i) (S i) tokens
        else parseTokenList_loop str rest (S i) start end_ tokens
      else if bool_decide (c = ","%char) then
        parseTokenList_loop str rest (S i) (S i) (S i)
          (tokens ++ [substring start (end_ - start) str])
      else parseTokenList_loop str rest (S i) start (S i) tokens
  end.

Definition parseTokenList (str : string) : list string :=
  parseTokenList_loop str (list_ascii_of_string str) 0 0 0 [].

(** A header that is present and not the empty string. *)
Definition truthy (h : option string) : bool :=
  match h with
  | Some (String _ _) => true
  | Some EmptyString => false
  | None => false
  end.

(** [match === etag || match === 'W/' + etag || 'W/' + match === etag] *)
Definition tag_matches (etag tag : string) : bool :=
  bool_decide (tag = etag) || bool_decide (tag = "W/" +:+ etag)
  || bool_decide ("W/" +:+ tag = etag).

(** [fresh(reqHeaders, resHeaders)] for a response that has the given
    ETag and no Last-Modified header (neither server.js nor the cors
    middleware sets one): an unconditional request is stale; so is one
    with [Cache-Control: no-cache]; [If-None-Match] must be ["*"] or name
    the tag; [If-Modified-Since] finds nothing to compare with. *)
Definition fresh (reqHeaders : gmap string string) (etag : string) : bool :=
  let modifiedSince := reqHeaders !! "if-modified-since" in
  let noneMatch := reqHeaders !! "if-none-match" in
  if negb (truthy modifiedSince) && negb (truthy noneMatch) then false
  else if match reqHeaders !! "cache-control" with
          | Some cacheControl =>
              truthy (Some cacheControl) && has_no_cache cacheControl
          | None => false
          end
  then false
  else if truthy noneMatch && negb (bool_decide (noneMatch = Some "*"))
          && (negb (truthy (Some etag))
              || negb (existsb (tag_matches etag)
                         (parseTokenList (default EmptyString noneMatch))))
  then false
  else if truthy modifiedSince then false
  else true.

End Fresh.

(** ** The world a request is handled in *)

(** The [Response] object of node-fetch, as far as the handler looks at
    it: the upstream's status code, which the handler never reads, and the
    promise [response.json()] returns (the body read and parsed). *)
Record Response : Type := {
  Response_status : Z;
  Response_json : Promise Value
}.

(** The [res] object of Express: the status code and the headers set so
    far, and whether the response has been written. *)
Record ServerResponse : Type := {
  statusCode : Z;
  headers : gmap string string;
  headersSent : bool
}.

(** A response as it is written to the client: the status, the headers
    and the text of the body. The header map holds the headers the
    application and its middleware set; those Express and Node add on
    their own account (X-Powered-By, Date, Content-Length, ETag) are not
    tracked. *)
Record HttpResponse : Type := {
  http_status : Z;
  http_headers : gmap string string;
  http_body : jsstring
}.

(** A GET request to /search: the parsed query string ([req.query]) and
    the request headers ([req.headers], names in lower case). *)
Record Request : Type := {
  req_query : gmap jsstring QueryValue;
  req_headers : gmap string string
}.

(** The state: the constants of the process, the upstream as the promise
    [fetch(url)] returns for each URL, the log of the URLs fetched, the
    [res] object of the request in flight, and the log of the responses
    written. *)
Record World : Type := {
  service : Service;
  upstream : jsstring -> Promise Response;
  outbound : list jsstring;
  res : ServerResponse;
  wire : list HttpResponse
}.

Definition set_res (r : ServerResponse) (w : World) : World :=
  {| service := service w; upstream := upstream w; outbound := outbound w;
     res := r; wire := wire w |}.

Definition log_outbound (url : jsstring) (w : World) : World :=
  {| service := service w; upstream := upstream w;
     outbound := outbound w ++ [url]; res := res w; wire := wire w |}.

Definition write (r : HttpResponse) (w : World) : World :=
  {| service := service w; upstream := upstream w; outbound := outbound w;
     res := res w; wire := wire w ++ [r] |}.

(** ** The monad of an async function body *)

(** A body returns, throws, or stays suspended at an [await] whose
    promise never settles. *)
Inductive Outcome (A : Type) : Type :=
| Return (a : A)
| Throw (e : Error)
| Suspended.
Arguments Return {A} a.
Arguments Throw {A} e.
Arguments Suspended {A}.

Definition M (A : Type) : Type := World -> Outcome A * World.

#[export] Instance M_ret : MRet M := fun A a w => (Return a, w).

#[export] Instance M_bind : MBind M := fun A B k m w =>
  match m w with
  | (Return a, w') => k a w'
  | (Throw e, w') => (Throw e, w')
  | (Suspended, w') => (Suspended, w')
  end.

Definition throw {A : Type} (e : Error) : M A := fun w => (Throw e, w).

(** [try { body } catch (err) { handler }]: only a throw is caught. *)
Definition try_catch {A : Type} (body : M A) (handler : Error -> M A) : M A :=
  fun w =>
    match body w with
    | (Throw e, w') => handler e w'
    | r => r
    end.

Definition await {A : Type} (p : Promise A) : M A :=
  fun w =>
    match p with
    | Fulfilled a => (Return a, w)
    | Rejected e => (Throw e, w)
    | Pending => (Suspended, w)
    end.

(** The value of an expression that may throw. *)
Definition eval {A : Type} (x : Error + A) : M A :=
  match x with
  | inr a => mret a
  | inl e => throw e
  end.

Definition get_service : M Service := fun w => (Return (service w), w).

(** [fetch(url)]: the request goes out, and the promise is the
    upstream's. *)
Definition fetch (url : jsstring) : M (Promise Response) :=
  fun w => (Return (upstream w url), log_outbound url w).

(** ** JSON.stringify (ECMA-262, SerializeJSONProperty) *)

(** A lowercase hexadecimal digit, as a code unit. *)
Definition lower_hex_digit (d : N) : N :=
  if d <? 10 then 48 + d else 87 + d.

(** UnicodeEscape: a backslash, [u] and four hexadecimal digits. *)
Definition UnicodeEscape (c : N) : jsstring :=
  js "\u" ++ [lower_hex_digit (c / 4096); lower_hex_digit ((c / 256) mod 16);
              lower_hex_digit ((c / 16) mod 16); lower_hex_digit (c mod 16)].

(** The characters of QuoteJSONString between the quotes: the short
    escapes, [\uXXXX] for the other control characters and for unpaired
    surrogates, and everything else as it is. *)
Fixpoint quote_units (s : jsstring) : jsstring :=
  match s with
  | [] => []
  | c :: rest =>
      if c =? 0x08 then js "\b" ++ quote_units rest
      else if c =? 0x09 then js "\t" ++ quote_units rest
      else if c =? 0x0A then js "\n" ++ quote_units rest
      else if c =? 0x0C then js "\f" ++ quote_units rest
      else if c =? 0x0D then js "\r" ++ quote_units rest
      else if c =? 0x22 then [0x5C; 0x22] ++ quote_units rest
      else if c =? 0x5C then [0x5C; 0x5C] ++ quote_units rest
      else if c <? 0x20 then UnicodeEscape c ++ quote_units rest
      else if URI.is_trailing_surrogate c then
        UnicodeEscape c ++ quote_units rest
      else if URI.is_leading_surrogate c then
        match rest with
        | second :: rest' =>
            if URI.is_trailing_surrogate second
            then c :: second :: quote_units rest'
            else UnicodeEscape c ++ quote_units rest
        | [] => UnicodeEscape c
        end
      else c :: quote_units rest
  end.

Definition QuoteJSONString (s : jsstring) : jsstring :=
  [0x22] ++ quote_units s ++ [0x22].

Section Definitions.

Context {rt : Runtime}.

(** A number in JSON text: Number::toString for a finite one, with
    ["0"] for either zero and a minus sign before the digits of a negative
    one; [null] for an infinity or NaN. *)
Definition JSON_number (x : spec_float) : jsstring :=
  match x with
  | S754_zero _ => js "0"
  | S754_finite negative m e =>
      (if negative then js "-" else []) ++ Number_digits m e
  | S754_infinity _ => js "null"
  | S754_nan => js "null"
  end.

(** [JSON.stringify(value)] without replacer or indentation, as
    [res.json] calls it. *)
Fixpoint JSON_stringify (v : Value) : jsstring :=
  match v with
  | VNull => js "null"
  | VBool true => js "true"
  | VBool false => js "false"
  | VNumber x => JSON_number x
  | VString s => QuoteJSONString s
  | VArray items =>
      js "["
      ++ (fix elements (l : list Value) : jsstring :=
            match l with
            | [] => []
            | x :: l' =>
                JSON_stringify x
                ++ match l' with
                   | [] => []
                   | _ :: _ => js "," ++ elements l'
                   end
            end) items
      ++ js "]"
  | VObject props =>
      js "{"
      ++ (fix members (l : list (jsstring * Value)) : jsstring :=
            match l with
            | [] => []
            | (key, x) :: l' =>
                QuoteJSONString key ++ js ":" ++ JSON_stringify x
                ++ match l' with
                   | [] => []
                   | _ :: _ => js "," ++ members l'
                   end
            end) props
      ++ js "}"
  end.

(** ** Express: the response object and the middleware *)

(** The [res] a request starts with. *)
Definition fresh_res : ServerResponse :=
  {| statusCode := 200; headers := ∅; headersSent := false |}.

Definition new_res : M unit := fun w => (Return tt, set_res fresh_res w).

(** [res.setHeader(name, value)] *)
Definition res_setHeader (name value : string) : M unit :=
  fun w =>
    let r := res w in
    if headersSent r then (Throw ERR_HTTP_HEADERS_SENT, w)
    else (Return tt,
          set_res {| statusCode := statusCode r;
                     headers := <[name := value]> (headers r);
                     headersSent := false |} w).

(** [res.status(code)] *)
Definition res_status (code : Z) : M unit :=
  fun w =>
    let r := res w in
    (Return tt,
     set_res {| statusCode := code; headers := headers r;
                headersSent := headersSent r |} w).

(** [req.fresh], for the GET requests of the route: only a 2xx or 304
    status can be fresh, and then the request headers decide against the
    ETag of the response. *)
Definition req_fresh (req : Request) (status : Z) (etag : string) : bool :=
  (((200 <=? status)%Z && (status <? 300)%Z) || (status =? 304)%Z)
  && Fresh.fresh (req_headers req) etag.

(** [res.send(chunk)] for a string: the ETag of the body is computed; a
    fresh request turns the status into 304; a 204 or 304 loses its
    content type and its body; the response is written. The statuses the
    route leaves on [res] are 200, 400 and 500. *)
Definition res_send (req : Request) (chunk : jsstring) : M unit :=
  fun w =>
    let r := res w in
    let status :=
      if req_fresh req (statusCode r) (etag_fn chunk) then 304%Z
      else statusCode r in
    let bodiless := bool_decide (status = 204%Z \/ status = 304%Z) in
    let hs :=
      if bodiless then delete "Content-Type" (headers r) else headers r in
    (Return tt,
     write {| http_status := status; http_headers := hs;
              http_body := if bodiless then [] else chunk |}
       (set_res {| statusCode := status; headers := hs;
                   headersSent := true |} w)).

(** [res.json(body)]: the body is serialised, the content type is set
    unless one is there, and the text is sent. Once the headers are sent,
    setting one throws. [req] is the request [res] belongs to
    ([res.req]). *)
Definition res_json (req : Request) (body : Value) : M unit :=
  fun w =>
    let r := res w in
    if headersSent r then (Throw ERR_HTTP_HEADERS_SENT, w)
    else
      let hs :=
        match headers r !! "Content-Type" with
        | Some _ => headers r
        | None =>
            <["Content-Type" := "application/json; charset=utf-8"]> (headers r)
        end in
      res_send req (JSON_stringify body)
        (set_res {| statusCode := statusCode r; headers := hs;
                    headersSent := false |} w).

(** [cors()] with its default options, on a request that is not a
    preflight: the header is set and the next handler runs. *)
Definition cors : M unit :=
  res_setHeader "Access-Control-Allow-Origin" "*".

(** ** server.js *)

(** [{ error: message }] *)
Definition error_body (message : string) : Value :=
  VObject [(js "error", VString (js message))].

(** The template literal passed to [fetch]. *)
Definition search_url (key : jsstring) (query : option QueryValue)
    : Error + jsstring :=
  match encodeURIComponent query with
  | inl e => inl e
  | inr q =>
      inr (js "https://api.themoviedb.org/3/search/movie?api_key=" ++ key
           ++ js "&query=" ++ q)
  end.

(** The handler of [app.get('/search', ...)]. *)
Definition search_handler (req : Request) : M unit :=
  let query := req_query req !! js "query" in
  if negb (ToBoolean query) then
    res_status 400;; res_json req (error_body "Missing query parameter")
  else
    try_catch
      (svc ← get_service;
       url ← eval (search_url (TMDB_API_KEY svc) query);
       response ← fetch url ≫= await;
       data ← await (Response_json response);
       res_json req data)
      (fun err =>
         res_status 500;; res_json req (error_body "Error fetching data")).

(** The application on a GET request to /search: a new [res], the cors
    middleware, then the route. *)
Definition app (req : Request) : M unit :=
  new_res;; cors;; search_handler req.

(** ** The responses of the route *)

Definition cors_headers : gmap string string :=
  <["Content-Type" := "application/json; charset=utf-8"]>
    (<["Access-Control-Allow-Origin" := "*"]> ∅).

Definition ok_response (data : Value) : HttpResponse :=
  {| http_status := 200; http_headers := cors_headers;
     http_body := JSON_stringify data |}.

Definition missing_query_response : HttpResponse :=
  {| http_status := 400; http_headers := cors_headers;
     http_body := JSON_stringify (error_body "Missing query parameter") |}.

Definition fetch_error_response : HttpResponse :=
  {| http_status := 500; http_headers := cors_headers;
     http_body := JSON_stringify (error_body "Error fetching data") |}.

(** The answer to a conditional request that is fresh: no content type
    and no body. *)
Definition not_modified_response : HttpResponse :=
  {| http_status := 304;
     http_headers := <["Access-Control-Allow-Origin" := "*"]> ∅;
     http_body := [] |}.

(** ** The outcomes of [app], path by path *)

(** [res] after the cors middleware, before the route has answered. *)
Definition cors_res : ServerResponse :=
  {| statusCode := 200;
     headers := <["Access-Control-Allow-Origin" := "*"]> ∅;
     headersSent := false |}.

(** The world after [r] has been written: it is on the wire and [res] is
    finished. *)
Definition answered (r : HttpResponse) (w : World) : World :=
  write r
    (set_res {| statusCode := http_status r; headers := http_headers r;
                headersSent := true |} w).

(** The world of a handler left suspended at an [await]. *)
Definition waiting (w : World) : World := set_res cors_res w.

(** The paths through [app], as a relation between a request, the world
    before and the result: validation fails; building the URL throws; the
    fetch is rejected, never settles, or is fulfilled; the body is
    rejected, never settles, or is decoded, and then the request is fresh
    or not. *)
Inductive Handled (req : Request) (w : World) : Outcome unit * World -> Prop :=
| Handled_missing :
    ToBoolean (req_query req !! js "query") = false ->
    Handled req w (Return tt, answered missing_query_response w)
| Handled_url_throws e :
    ToBoolean (req_query req !! js "query") = true ->
    search_url (TMDB_API_KEY (service w)) (req_query req !! js "query") = inl e ->
    Handled req w (Return tt, answered fetch_error_response w)
| Handled_fetch_rejected url e :
    ToBoolean (req_query req !! js "query") = true ->
    search_url (TMDB_API_KEY (service w)) (req_query req !! js "query") = inr url ->
    upstream w url = Rejected e ->
    Handled req w
      (Return tt, answered fetch_error_response (log_outbound url w))
| Handled_fetch_pending url :
    ToBoolean (req_query req !! js "query") = true ->
    search_url (TMDB_API_KEY (service w)) (req_query req !! js "query") = inr url ->
    upstream w url = Pending ->
    Handled req w (Suspended, waiting (log_outbound url w))
| Handled_body_rejected url response e :
    ToBoolean (req_query req !! js "query") = true ->
    search_url (TMDB_API_KEY (service w)) (req_query req !! js "query") = inr url ->
    upstream w url = Fulfilled response ->
    Response_json response = Rejected e ->
    Handled req w
      (Return tt, answered fetch_error_response (log_outbound url w))
| Handled_body_pending url response :
    ToBoolean (req_query req !! js "query") = true ->
    search_url (TMDB_API_KEY (service w)) (req_query req !! js "query") = inr url ->
    upstream w url = Fulfilled response ->
    Response_json response = Pending ->
    Handled req w (Suspended, waiting (log_outbound url w))
| Handled_ok url response data :
    ToBoolean (req_query req !! js "query") = true ->
    search_url (TMDB_API_KEY (service w)) (req_query req !! js "query") = inr url ->
    upstream w url = Fulfilled response ->
    Response_json response = Fulfilled data ->
    Fresh.fresh (req_headers req) (etag_fn (JSON_stringify data)) = false ->
    Handled req w (Return tt, answered (ok_response data) (log_outbound url w))
| Handled_not_modified url response data :
    ToBoolean (req_query req !! js "query") = true ->
    search_url (TMDB_API_KEY (service w)) (req_query req !! js "query") = inr url ->
    upstream w url = Fulfilled response ->
    Response_json response = Fulfilled data ->
    Fresh.fresh (req_headers req) (etag_fn (JSON_stringify data)) = true ->
    Handled req w
      (Return tt, answered not_modified_response (log_outbound url w)).

(** ** Notions the statements use *)

(** The shapes of a response of the route: the 400, the 500, the 200
    with the text of a document, and the 304 without a body. *)
Definition route_response (r : HttpResponse) : Prop :=
  r = missing_query_response \/ r = fetch_error_response
  \/ (exists data, r = ok_response data)
  \/ r = not_modified_response.

(** A promise of [fetch] is settled through: it is rejected, or it is
    fulfilled with a response whose body promise is not left pending. *)
Definition settled (p : Promise Response) : Prop :=
  match p with
  | Pending => False
  | Rejected _ => True
  | Fulfilled response => Response_json response <> Pending
  end.

(** The upstream call of a request settles: whatever URL the request
    makes the handler fetch in this world, the promises it then awaits
    settle. A request that makes no call satisfies it. *)
Definition settles (req : Request) (w : World) : Prop :=
  forall url,
    ToBoolean (req_query req !! js "query") = true ->
    search_url (TMDB_API_KEY (service w)) (req_query req !! js "query")
    = inr url ->
    settled (upstream w url).

(** The request is fresh against the document the upstream returns for
    it: Express will answer 304 in place of the 200. *)
Definition fresh_for (req : Request) (data : Value) : bool :=
  Fresh.fresh (req_headers req) (etag_fn (JSON_stringify data)).

End Definitions.

(** The elements of an array joined with commas. *)
Fixpoint comma_join (ss : list jsstring) : jsstring :=
  match ss with
  | [] => []
  | [s] => s
  | s :: ss' => s ++ js "," ++ comma_join ss'
  end.

(** A code unit that may stand in a query component as it is: one the
    encoder leaves alone, or the ["%"] of an escape. *)
Definition url_safe (c : N) : Prop := URI.unescaped c = true \/ c = 37.

(** The URL of the search endpoint for a key and an encoded query. *)
Definition tmdb_search (key encoded : jsstring) : jsstring :=
  js "https://api.themoviedb.org/3/search/movie?api_key=" ++ key
  ++ js "&query=" ++ encoded.

(** The strings of a list with a separator between them. *)
Fixpoint join_with (sep : jsstring) (ss : list jsstring) : jsstring :=
  match ss with
  | [] => []
  | [s] => s
  | s :: ss' => s ++ sep ++ join_with sep ss'
  end.

(** ** A runtime for the examples *)

(** Number::toString on the magnitude [m * 2^e] of a binary64 number: the
    shortest decimal [s * 10^(n-k)], [s] of [k] digits, that reads back as
    the number, the closest to it where several do, and then the layout
    by [n]. *)
Module Shortest.

Local Open Scope Z_scope.

(** [m * 2^e < 10^n] *)
Definition below_power (m e n : Z) : bool :=
  m * 2 ^ Z.max e 0 * 10 ^ Z.max (- n) 0 <? 10 ^ Z.max n 0 * 2 ^ Z.max (- e) 0.

(** The [n] with [10^(n-1) <= m * 2^e < 10^n], searched upwards. *)
Fixpoint magnitude (fuel : nat) (m e n : Z) : Z :=
  match fuel with
  | O => n
  | S fuel' => if below_power m e n then n else magnitude fuel' m e (n + 1)
  end.

(** The number reads back from [s * 10^t]: the decimal lies between the
    midpoints to the neighbours of [m * 2^e], at a midpoint only when [m]
    is even. Everything is counted in units of [2^(e-2)]. *)
Definition reads_back (m e s t : Z) : bool :=
  let decimal := s * 10 ^ Z.max t 0 * 2 ^ Z.max (2 - e) 0 in
  let unit := 2 ^ Z.max (e - 2) 0 * 10 ^ Z.max (- t) 0 in
  let low :=
    if (m =? 2 ^ 52) && (-1074 <? e) then 4 * m - 1 else 4 * m - 2 in
  let high := 4 * m + 2 in
  if Z.even m
  then (low * unit <=? decimal) && (decimal <=? high * unit)
  else (low * unit <? decimal) && (decimal <? high * unit).

(** [floor (m * 2^e / 10^t)] *)
Definition digits_below (m e t : Z) : Z :=
  (m * 2 ^ Z.max e 0 * 10 ^ Z.max (- t) 0)
  / (2 ^ Z.max (- e) 0 * 10 ^ Z.max t 0).

(** [m * 2^e] is no farther from [s * 10^t] than from [(s + 1) * 10^t]. *)
Definition nearer_below (m e s t : Z) : bool :=
  2 * m * 2 ^ Z.max e 0 * 10 ^ Z.max (- t) 0
  <=? (2 * s + 1) * 10 ^ Z.max t 0 * 2 ^ Z.max (- e) 0.

(** The digits [s] and the exponent [n], for the least [k] that has
    them. *)
Fixpoint shortest (fuel : nat) (m e n k : Z) : Z * Z :=
  let t := n - k in
  let below := digits_below m e t in
  let above := below + 1 in
  let answer (s : Z) := if s =? 10 ^ k then (10 ^ (k - 1), n + 1) else (s, n) in
  match fuel with
  | O => (below, n)
  | S fuel' =>
      match reads_back m e below t, reads_back m e above t with
      | true, true =>
          if nearer_below m e below t then answer below else answer above
      | true, false => answer below
      | false, true => answer above
      | false, false => shortest fuel' m e n (k + 1)
      end
  end.

Definition decimal (z : Z) : string := NilZero.string_of_uint (N.to_uint (Z.to_N z)).

(** The digits of [s] with the trailing zeros it has when the decimal
    [10^k] was reached dropped. *)
Fixpoint drop_zeros (fuel : nat) (s : Z) : Z :=
  match fuel with
  | O => s
  | S fuel' => if (s mod 10 =? 0) && (0 <? s) then drop_zeros fuel' (s / 10) else s
  end.

Definition zeros (count : Z) : string :=
  string_of_list_ascii (repeat "0"%char (Z.to_nat count)).

(** The layout of the digits of [s] for the exponent [n]. *)
Definition layout (s n : Z) : string :=
  let digits := decimal s in
  let k := Z.of_nat (String.length digits) in
  if (k <=? n) && (n <=? 21) then digits +:+ zeros (n - k)
  else if (0 <? n) && (n <=? 21) then
    substring 0 (Z.to_nat n) digits +:+ "."
    +:+ substring (Z.to_nat n) (Z.to_nat (k - n)) digits
  else if (-6 <? n) && (n <=? 0) then "0." +:+ zeros (- n) +:+ digits
  else
    let exponent :=
      (if 0 <=? n - 1 then "+" else "-") +:+ decimal (Z.abs (n - 1)) in
    if k =? 1 then digits +:+ "e" +:+ exponent
    else substring 0 1 digits +:+ "."
         +:+ substring 1 (Z.to_nat (k - 1)) digits +:+ "e" +:+ exponent.

Definition Number_toString (m : positive) (e : Z) : string :=
  let n := magnitude 640 (Z.pos m) e (-324) in
  let '(s, n') := shortest 17 (Z.pos m) e n 1 in
  layout (drop_zeros 17 s) n'.

End Shortest.

(** A stand-in for the ETag function: a weak tag made of the length of
    the body alone. *)
Definition length_etag (body : jsstring) : string :=
  "W/" +:+ String (ascii_of_N 34)
             (Shortest.decimal (Z.of_nat (length body))
              +:+ String (ascii_of_N 34) EmptyString).

Definition sample_runtime : Runtime :=
  {| Number_digits := fun m e => js (Shortest.Number_toString m e);
     etag_fn := length_etag |}.

(** ** Requests, documents and upstreams used in the examples *)

Definition request_with (v : QueryValue) : Request :=
  {| req_query := {[ js "query" := v ]}; req_headers := ∅ |}.

Definition request_without : Request :=
  {| req_query := ∅; req_headers := ∅ |}.

(** The same request sent with [If-None-Match: *]. *)
Definition if_none_match_any (req : Request) : Request :=
  {| req_query := req_query req;
     req_headers := <["if-none-match" := "*"]> (req_headers req) |}.

(** [{"results":[{"id":1,"title":"Batman"}]}] *)
Definition batman_doc : Value :=
  VObject
    [(js "results",
      VArray
        [VObject [(js "id", VNumber (Number_of_Z 1));
                  (js "title", VString (js "Batman"))]])].

(** The document TMDB sends with status 401 for a key it does not know. *)
Definition invalid_key_doc : Value :=
  VObject
    [(js "status_code", VNumber (Number_of_Z 7));
     (js "status_message",
      VString (js "Invalid API key: You must be granted a valid key."));
     (js "success", VBool false)].

Definition upstream_answers (status : Z) (data : Value)
    : jsstring -> Promise Response :=
  fun _ => Fulfilled {| Response_status := status;
                        Response_json := Fulfilled data |}.

Definition upstream_unreachable : jsstring -> Promise Response :=
  fun _ => Rejected FetchError.

Definition upstream_not_json : jsstring -> Promise Response :=
  fun _ => Fulfilled {| Response_status := 502;
                        Response_json := Rejected SyntaxError |}.

Definition upstream_silent : jsstring -> Promise Response :=
  fun _ => Pending.

(** A process started with an empty environment, before any request. *)
Definition world_with (net : jsstring -> Promise Response) : World :=
  {| service := startup ∅; upstream := net; outbound := [];
     res := fresh_res; wire := [] |}.
(** * Properties *)

(** ** The encoder and the coercions on examples *)

Example encode_plain : URI.Encode (js "batman") = inr (js "batman").
Proof. reflexivity. Qed.

Example encode_reserved :
  URI.Encode (js "a b&c=d,e/f") = inr (js "a%20b%26c%3Dd%2Ce%2Ff").
Proof. reflexivity. Qed.

(** U+00E9, U+20AC and U+1F600 (a surrogate pair). *)
Example encode_utf8 :
  URI.Encode [0xE9; 0x20AC; 0xD83D; 0xDE00]
  = inr (js "%C3%A9%E2%82%AC%F0%9F%98%80").
Proof. reflexivity. Qed.

Example encode_lone_surrogate : URI.Encode [97; 0xD83D; 98] = inl URIError.
Proof. reflexivity. Qed.

Example ToString_nested :
  ToString (QArray [QString (js "a");
                    QArray [QString (js "b"); QString (js "c")];
                    QObject {[ js "x" := QString (js "y") ]}])
  = inr (js "a,b,c,[object Object]").
Proof. reflexivity. Qed.

Example ToString_shadowed :
  ToString (QObject {[ js "toString" := QString (js "x") ]}) = inl TypeError.
Proof. reflexivity. Qed.

(** ** The encoder *)

Module URIFacts.
Import URI.

Lemma unescaped_digit c : 48 <= c <= 57 -> unescaped c = true.
Proof.
  intros [Hlo Hhi]. unfold unescaped.
  apply N.leb_le in Hlo, Hhi. rewrite Hlo, Hhi.
  by rewrite !orb_true_r.
Qed.

Lemma unescaped_upper c : 65 <= c <= 90 -> unescaped c = true.
Proof.
  intros [Hlo Hhi]. unfold unescaped.
  apply N.leb_le in Hlo, Hhi. by rewrite Hlo, Hhi.
Qed.

Lemma hex_digit_unescaped d : d < 16 -> unescaped (hex_digit d) = true.
Proof.
  intros Hd. unfold hex_digit. destruct (d <? 10) eqn:Hlt.
  - apply N.ltb_lt in Hlt. apply unescaped_digit. lia.
  - apply N.ltb_ge in Hlt. apply unescaped_upper. lia.
Qed.

Lemma percent_url_safe octet : octet < 256 -> Forall url_safe (percent octet).
Proof.
  intros Ho. unfold percent.
  assert (octet / 16 < 16) by (apply N.Div0.div_lt_upper_bound; lia).
  assert (octet mod 16 < 16) by (apply N.mod_lt; lia).
  apply List.Forall_cons; [by right|].
  apply List.Forall_cons; [left; by apply hex_digit_unescaped|].
  apply List.Forall_cons; [left; by apply hex_digit_unescaped|].
  apply List.Forall_nil.
Qed.

Lemma lor_lt_256 a b : a < 256 -> b < 256 -> N.lor a b < 256.
Proof.
  intros Ha Hb.
  destruct (N.eq_dec (N.lor a b) 0) as [->|Hnz]; [lia|].
  change 256 with (2 ^ 8). apply N.log2_lt_pow2; [lia|].
  rewrite N.log2_lor.
  destruct (N.eq_dec a 0) as [->|Ha0], (N.eq_dec b 0) as [->|Hb0];
    cbn [N.log2]; try lia.
  - apply N.max_lub_lt; [lia|]. apply N.log2_lt_pow2; lia.
  - apply N.max_lub_lt; [|lia]. apply N.log2_lt_pow2; lia.
  - apply N.max_lub_lt; apply N.log2_lt_pow2; lia.
Qed.

Lemma land_63 a : N.land a 0x3F < 64.
Proof.
  change 0x3F with (N.ones 6). rewrite N.land_ones.
  apply N.mod_lt. discriminate.
Qed.

Lemma shiftr_lt cp n b : cp < b * 2 ^ n -> N.shiftr cp n < b.
Proof.
  intros H. rewrite N.shiftr_div_pow2.
  apply N.Div0.div_lt_upper_bound. lia.
Qed.

Lemma utf8_octets cp : cp < 0x110000 -> Forall (fun o => o < 256) (utf8 cp).
Proof.
  intros Hcp. unfold utf8.
  destruct (cp <? 0x80) eqn:H1; [apply N.ltb_lt in H1|].
  { apply List.Forall_cons; [lia | apply List.Forall_nil]. }
  destruct (cp <? 0x800) eqn:H2; [apply N.ltb_lt in H2|].
  { pose proof (shiftr_lt cp 6 32 ltac:(cbn; lia)).
    pose proof (land_63 cp).
    repeat (apply List.Forall_cons; [apply lor_lt_256; lia|]).
    apply List.Forall_nil. }
  destruct (cp <? 0x10000) eqn:H3; [apply N.ltb_lt in H3|].
  { pose proof (shiftr_lt cp 12 16 ltac:(cbn; lia)).
    pose proof (land_63 (N.shiftr cp 6)). pose proof (land_63 cp).
    repeat (apply List.Forall_cons; [apply lor_lt_256; lia|]).
    apply List.Forall_nil. }
  pose proof (shiftr_lt cp 18 8 ltac:(cbn; lia)).
  pose proof (land_63 (N.shiftr cp 12)).
  pose proof (land_63 (N.shiftr cp 6)). pose proof (land_63 cp).
  repeat (apply List.Forall_cons; [apply lor_lt_256; lia|]).
  apply List.Forall_nil.
Qed.

Lemma escape_url_safe cp : cp < 0x110000 -> Forall url_safe (escape cp).
Proof.
  intros Hcp. unfold escape.
  induction (utf8_octets cp Hcp) as [|o os Ho _ IH]; [constructor|].
  cbn [fmap list_fmap concat]. apply Forall_app. split; [|exact IH].
  by apply percent_url_safe.
Qed.

Lemma surrogate_pair_range lead trail :
  is_leading_surrogate lead = true -> is_trailing_surrogate trail = true ->
  0x10000 <= surrogate_pair_to_code_point lead trail < 0x110000.
Proof.
  unfold is_leading_surrogate, is_trailing_surrogate,
    surrogate_pair_to_code_point.
  rewrite !andb_true_iff, !N.leb_le. lia.
Qed.

(** The encoder's output holds only unescaped units and ["%"]. *)
Lemma Encode_url_safe s r :
  code_units_ok s -> Encode s = inr r -> Forall url_safe r.
Proof.
  revert r. induction s as [s IH] using (induction_ltof1 _ (@length N)).
  unfold ltof in IH. intros r Hok He.
  destruct s as [|c rest]; [injection He as <-; constructor|].
  apply Forall_cons in Hok as [Hc Hrest]. cbn [Encode] in He.
  destruct (unescaped c) eqn:Hun.
  { destruct (Encode rest) as [|r'] eqn:Hr; [discriminate|].
    injection He as <-. apply List.Forall_cons; [by left|].
    apply (IH rest); [cbn; lia|done|done]. }
  destruct (is_trailing_surrogate c); [discriminate|].
  destruct (is_leading_surrogate c) eqn:Hlead.
  - destruct rest as [|second rest']; [discriminate|].
    destruct (is_trailing_surrogate second) eqn:Htrail; [|discriminate].
    destruct (Encode rest') as [|r'] eqn:Hr; [discriminate|].
    injection He as <-. apply Forall_cons in Hrest as [_ Hrest'].
    apply Forall_app. split.
    + apply escape_url_safe. by apply surrogate_pair_range.
    + apply (IH rest'); [cbn; lia|done|done].
  - destruct (Encode rest) as [|r'] eqn:Hr; [discriminate|].
    injection He as <-. apply Forall_app. split.
    + apply escape_url_safe. lia.
    + apply (IH rest); [cbn; lia|done|done].
Qed.

(** Units the encoder leaves alone make a string it leaves alone. *)
Lemma Encode_unescaped s :
  Forall (fun c => unescaped c = true) s -> Encode s = inr s.
Proof.
  induction 1 as [|c s Hc _ IH]; [reflexivity|].
  cbn [Encode]. by rewrite Hc, IH.
Qed.

(** Without surrogates the encoder does not throw. *)
Lemma Encode_without_surrogates s :
  Forall (fun c => is_leading_surrogate c = false
                   /\ is_trailing_surrogate c = false) s ->
  exists r, Encode s = inr r.
Proof.
  induction 1 as [|c s [Hl Ht] _ [r IH]]; [by eexists|].
  cbn [Encode]. rewrite Hl, Ht, IH. destruct (unescaped c); by eexists.
Qed.
End URIFacts.

(** A string without surrogates always yields a URL, and its query part
    is safe. *)
Lemma search_url_of_string (key s : jsstring) :
  code_units_ok s ->
  Forall (fun c => URI.is_leading_surrogate c = false
                   /\ URI.is_trailing_surrogate c = false) s ->
  exists encoded,
    search_url key (Some (QString s)) = inr (tmdb_search key encoded)
    /\ Forall url_safe encoded.
Proof.
  intros Hok Hs.
  destruct (URIFacts.Encode_without_surrogates s Hs) as [encoded He].
  exists encoded. split.
  - unfold search_url, encodeURIComponent. cbn [ToString]. by rewrite He.
  - by apply (URIFacts.Encode_url_safe s).
Qed.

(** ** The monad *)

Lemma bind_Return {A B : Type} (m : M A) (k : A -> M B) w a w' :
  m w = (Return a, w') -> (m ≫= k) w = k a w'.
Proof. intros H. unfold mbind, M_bind. by rewrite H. Qed.

Lemma bind_Throw {A B : Type} (m : M A) (k : A -> M B) w e w' :
  m w = (Throw e, w') -> (m ≫= k) w = (Throw e, w').
Proof. intros H. unfold mbind, M_bind. by rewrite H. Qed.

Lemma bind_Suspended {A B : Type} (m : M A) (k : A -> M B) w w' :
  m w = (Suspended, w') -> (m ≫= k) w = (Suspended, w').
Proof. intros H. unfold mbind, M_bind. by rewrite H. Qed.

Lemma try_catch_Throw {A : Type} (body : M A) handler w e w' :
  body w = (Throw e, w') -> try_catch body handler w = handler e w'.
Proof. intros H. unfold try_catch. by rewrite H. Qed.

Lemma try_catch_Return {A : Type} (body : M A) handler w a w' :
  body w = (Return a, w') -> try_catch body handler w = (Return a, w').
Proof. intros H. unfold try_catch. by rewrite H. Qed.

Lemma try_catch_Suspended {A : Type} (body : M A) handler w w' :
  body w = (Suspended, w') -> try_catch body handler w = (Suspended, w').
Proof. intros H. unfold try_catch. by rewrite H. Qed.

(** ** The encoder is injective *)

Module URIInjective.
Import URI.

(** Quotients and remainders by constants are left to [lia]. *)
#[local] Ltac Zify.zify_convert_to_euclidean_division_equations_flag ::=
  constr:(true).

(** Where the bits of [hi] and [x] do not meet, the bitwise or is the
    sum. *)
Lemma lor_disjoint hi x n :
  N.land hi (N.ones n) = 0 -> x < 2 ^ n -> N.lor hi x = hi + x.
Proof.
  intros Hhi Hx.
  assert (N.land hi x = 0) as Hdisj.
  { replace x with (N.land (N.ones n) x)
      by (rewrite N.land_comm, N.land_ones; by apply N.mod_small).
    rewrite N.land_assoc, Hhi. apply N.land_0_l. }
  rewrite <- N.lxor_lor by done. symmetry. by apply N.add_nocarry_lxor.
Qed.

(** The octets of a code point, in arithmetic. *)
Lemma utf8_arith cp :
  cp < 0x110000 ->
  utf8 cp
  = if cp <? 0x80 then [cp]
    else if cp <? 0x800 then [0xC0 + cp / 64; 0x80 + cp mod 64]
    else if cp <? 0x10000 then
      [0xE0 + cp / 4096; 0x80 + (cp / 64) mod 64; 0x80 + cp mod 64]
    else
      [0xF0 + cp / 262144; 0x80 + (cp / 4096) mod 64;
       0x80 + (cp / 64) mod 64; 0x80 + cp mod 64].
Proof.
  intros Hcp. unfold utf8.
  assert (forall y, N.lor 0x80 (N.land y 0x3F) = 0x80 + y mod 64) as Hcont.
  { intros y. change 0x3F with (N.ones 6). rewrite N.land_ones.
    apply (lor_disjoint _ _ 6); [reflexivity|].
    apply N.mod_lt. discriminate. }
  rewrite !Hcont, !N.shiftr_div_pow2.
  change (2 ^ 6) with 64. change (2 ^ 12) with 4096.
  change (2 ^ 18) with 262144.
  destruct (cp <? 0x80) eqn:H1; [done|]. apply N.ltb_ge in H1.
  destruct (cp <? 0x800) eqn:H2; [apply N.ltb_lt in H2|apply N.ltb_ge in H2].
  { rewrite (lor_disjoint 0xC0 _ 6); [done|reflexivity|].
    change (2 ^ 6) with 64. lia. }
  destruct (cp <? 0x10000) eqn:H3; [apply N.ltb_lt in H3|apply N.ltb_ge in H3].
  { rewrite (lor_disjoint 0xE0 _ 5); [done|reflexivity|].
    change (2 ^ 5) with 32. lia. }
  rewrite (lor_disjoint 0xF0 _ 4); [done|reflexivity|].
  change (2 ^ 4) with 16. lia.
Qed.

Lemma hex_digit_inj d1 d2 :
  d1 < 16 -> d2 < 16 -> hex_digit d1 = hex_digit d2 -> d1 = d2.
Proof.
  unfold hex_digit. intros H1 H2.
  destruct (d1 <? 10) eqn:E1, (d2 <? 10) eqn:E2;
    first [apply N.ltb_lt in E1 | apply N.ltb_ge in E1];
    first [apply N.ltb_lt in E2 | apply N.ltb_ge in E2]; lia.
Qed.

Lemma percent_inj o1 o2 r1 r2 :
  o1 < 256 -> o2 < 256 ->
  percent o1 ++ r1 = percent o2 ++ r2 -> o1 = o2 /\ r1 = r2.
Proof.
  intros H1 H2 Heq. unfold percent in Heq.
  injection Heq as Hhi Hlo Hr.
  apply hex_digit_inj in Hhi; [|lia|lia].
  apply hex_digit_inj in Hlo; [|lia|lia].
  split; [lia|done].
Qed.

Lemma percents_inj (l1 l2 : list N) r1 r2 :
  Forall (fun o => o < 256) l1 -> Forall (fun o => o < 256) l2 ->
  length l1 = length l2 ->
  concat (percent <$> l1) ++ r1 = concat (percent <$> l2) ++ r2 ->
  l1 = l2 /\ r1 = r2.
Proof.
  intros Hl1. revert l2.
  induction Hl1 as [|o1 l1 Ho1 _ IH]; intros [|o2 l2] Hl2 Hlen Heq;
    try discriminate; [done|].
  apply Forall_cons in Hl2 as [Ho2 Hl2].
  cbn [fmap list_fmap concat] in Heq. rewrite <- !app_assoc in Heq.
  apply percent_inj in Heq as [-> Heq]; [|done|done].
  destruct (IH l2 Hl2) as [-> ->]; [by injection Hlen|done|done].
Qed.

Ltac split_ltb a b :=
  let H := fresh "H" in
  destruct (a <? b) eqn:H; [apply N.ltb_lt in H | apply N.ltb_ge in H].

(** The four classes of a code point, by the number of its octets. *)
Ltac classes cp :=
  split_ltb cp 0x80; [|split_ltb cp 0x800; [|split_ltb cp 0x10000]].

(** The first octet tells how many follow. *)
Lemma utf8_length cp o os :
  cp < 0x110000 -> utf8 cp = o :: os ->
  length os
  = if o <? 0x80 then 0%nat else if o <? 0xE0 then 1%nat
    else if o <? 0xF0 then 2%nat else 3%nat.
Proof.
  intros Hcp. rewrite utf8_arith by done.
  classes cp; intros Heq; injection Heq as <- <-.
  - by rewrite (proj2 (N.ltb_lt _ _)) by lia.
  - rewrite (proj2 (N.ltb_ge _ _)) by lia.
    by rewrite (proj2 (N.ltb_lt _ _)) by lia.
  - rewrite (proj2 (N.ltb_ge _ _)) by lia.
    rewrite (proj2 (N.ltb_ge _ _)) by lia.
    by rewrite (proj2 (N.ltb_lt _ _)) by lia.
  - rewrite (proj2 (N.ltb_ge _ _)) by lia.
    rewrite (proj2 (N.ltb_ge _ _)) by lia.
    by rewrite (proj2 (N.ltb_ge _ _)) by lia.
Qed.

Lemma utf8_inj cp1 cp2 :
  cp1 < 0x110000 -> cp2 < 0x110000 -> utf8 cp1 = utf8 cp2 -> cp1 = cp2.
Proof.
  intros H1 H2. rewrite !utf8_arith by done.
  classes cp1; classes cp2; intros Heq; try discriminate Heq;
    injection Heq; intros; lia.
Qed.

(** Two escapes that start two equal strings are escapes of the same
    code point, and the rests are equal. *)
Lemma escape_inj cp1 cp2 r1 r2 :
  cp1 < 0x110000 -> cp2 < 0x110000 ->
  escape cp1 ++ r1 = escape cp2 ++ r2 ->
  cp1 = cp2 /\ r1 = r2.
Proof.
  intros H1 H2 Heq. unfold escape in Heq.
  pose proof (URIFacts.utf8_octets cp1 H1) as Ho1.
  pose proof (URIFacts.utf8_octets cp2 H2) as Ho2.
  pose proof (utf8_length cp1) as Hl1. pose proof (utf8_length cp2) as Hl2.
  destruct (utf8 cp1) as [|o1 os1] eqn:E1.
  { rewrite utf8_arith in E1 by done. by classes cp1. }
  destruct (utf8 cp2) as [|o2 os2] eqn:E2.
  { rewrite utf8_arith in E2 by done. by classes cp2. }
  assert (o1 = o2) as ->.
  { cbn [fmap list_fmap concat] in Heq. rewrite <- !app_assoc in Heq.
    apply Forall_cons in Ho1 as [? _]. apply Forall_cons in Ho2 as [? _].
    by apply percent_inj in Heq as [-> _]. }
  apply percents_inj in Heq as [Heq ->]; [|done|done|].
  - split; [|done]. apply utf8_inj; [done|done|]. by rewrite E1, E2.
  - cbn [length]. by rewrite (Hl1 o2 os1), (Hl2 o2 os2).
Qed.

Lemma escape_head cp : exists r, escape cp = 37 :: r.
Proof.
  unfold escape, utf8.
  repeat match goal with |- context [if ?b then _ else _] => destruct b end;
    cbv [fmap list_fmap concat List.app percent]; by eexists.
Qed.

(** What [Encode] does with the first unit: it copies it, or it escapes
    the code point that starts there, one unit or a surrogate pair. *)
Lemma Encode_cons c rest r :
  c < 65536 ->
  Encode (c :: rest) = inr r ->
  (unescaped c = true /\ exists r', Encode rest = inr r' /\ r = c :: r')
  \/ (unescaped c = false
      /\ ((c < 0x110000 /\ is_leading_surrogate c = false
           /\ exists r', Encode rest = inr r' /\ r = escape c ++ r')
          \/ exists trail rest' r',
               rest = trail :: rest'
               /\ is_leading_surrogate c = true
               /\ is_trailing_surrogate trail = true
               /\ Encode rest' = inr r'
               /\ r = escape (surrogate_pair_to_code_point c trail) ++ r')).
Proof.
  intros Hc He. cbn [Encode] in He.
  destruct (unescaped c) eqn:Hun.
  { left. split; [done|].
    destruct (Encode rest) as [|r']; [discriminate|].
    injection He as <-. by eexists. }
  right. split; [done|].
  destruct (is_trailing_surrogate c); [discriminate|].
  destruct (is_leading_surrogate c) eqn:Hlead.
  - right. destruct rest as [|trail rest']; [discriminate|].
    destruct (is_trailing_surrogate trail) eqn:Htrail; [|discriminate].
    destruct (Encode rest') as [|r'] eqn:Hr; [discriminate|].
    injection He as <-. by exists trail, rest', r'.
  - left. destruct (Encode rest) as [|r']; [discriminate|].
    injection He as <-. split; [lia|]. split; [done|]. by eexists.
Qed.

Lemma surrogate_pair_inj l1 t1 l2 t2 :
  is_leading_surrogate l1 = true -> is_trailing_surrogate t1 = true ->
  is_leading_surrogate l2 = true -> is_trailing_surrogate t2 = true ->
  surrogate_pair_to_code_point l1 t1 = surrogate_pair_to_code_point l2 t2 ->
  l1 = l2 /\ t1 = t2.
Proof.
  unfold is_leading_surrogate, is_trailing_surrogate,
    surrogate_pair_to_code_point.
  rewrite !andb_true_iff, !N.leb_le. lia.
Qed.

Lemma Encode_nil s : code_units_ok s -> Encode s = inr [] -> s = [].
Proof.
  intros Hok He. destruct s as [|c rest]; [done|].
  apply Forall_cons in Hok as [Hc _].
  apply (Encode_cons _ _ _ Hc) in He
    as [(_ & r' & _ & ?)
       | (_ & [(_ & _ & r' & _ & Hr) | (t & ? & r' & _ & _ & _ & _ & Hr)])].
  - done.
  - destruct (escape_head c) as [esc Hesc]. by rewrite Hesc in Hr.
  - destruct (escape_head (surrogate_pair_to_code_point c t)) as [esc Hesc].
    by rewrite Hesc in Hr.
Qed.

(** An escape never starts like a copied unit. *)
Lemma copied_not_escaped c cp (r1 r2 : jsstring) :
  unescaped c = true -> c :: r1 <> escape cp ++ r2.
Proof.
  intros Hun Heq. destruct (escape_head cp) as [esc Hesc]. rewrite Hesc in Heq.
  injection Heq as -> _. discriminate Hun.
Qed.

(** [Encode] is injective on strings of 16-bit units. *)
Lemma Encode_inj s1 s2 r :
  code_units_ok s1 -> code_units_ok s2 ->
  Encode s1 = inr r -> Encode s2 = inr r -> s1 = s2.
Proof.
  revert s2 r.
  induction s1 as [s1 IH] using (induction_ltof1 _ (@length N)).
  unfold ltof in IH. intros s2 r Hok1 Hok2 He1 He2.
  destruct s1 as [|c1 rest1].
  { injection He1 as <-. symmetry. by apply Encode_nil. }
  destruct s2 as [|c2 rest2].
  { injection He2 as <-. by apply Encode_nil. }
  apply Forall_cons in Hok1 as [Hc1 Hok1].
  apply Forall_cons in Hok2 as [Hc2 Hok2].
  apply (Encode_cons _ _ _ Hc1) in He1
    as [(Hun1 & r1 & He1 & ->)
       | (Hun1 & [(_ & Hl1 & r1 & He1 & ->)
                 | (t1 & rest1' & r1 & -> & Hl1 & Ht1 & He1 & ->)])];
    apply (Encode_cons _ _ _ Hc2) in He2
      as [(Hun2 & r2 & He2 & Heq)
         | (Hun2 & [(_ & Hl2 & r2 & He2 & Heq)
                   | (t2 & rest2' & r2 & -> & Hl2 & Ht2 & He2 & Heq)])].
  - injection Heq as -> ->. f_equal. apply (IH rest1) with r2; cbn; [lia|done..].
  - by apply copied_not_escaped in Heq.
  - by apply copied_not_escaped in Heq.
  - symmetry in Heq. by apply copied_not_escaped in Heq.
  - apply escape_inj in Heq as [-> ->]; [|lia|lia].
    f_equal. apply (IH rest1) with r2; cbn; [lia|done..].
  - pose proof (URIFacts.surrogate_pair_range c2 t2 Hl2 Ht2).
    apply escape_inj in Heq as [-> _]; lia.
  - symmetry in Heq. by apply copied_not_escaped in Heq.
  - pose proof (URIFacts.surrogate_pair_range c1 t1 Hl1 Ht1).
    apply escape_inj in Heq as [<- _]; lia.
  - pose proof (URIFacts.surrogate_pair_range c1 t1 Hl1 Ht1).
    pose proof (URIFacts.surrogate_pair_range c2 t2 Hl2 Ht2).
    apply escape_inj in Heq as [Hcp ->]; [|lia|lia].
    apply surrogate_pair_inj in Hcp as [-> ->]; [|done..].
    apply Forall_cons in Hok1 as [_ Hok1].
    apply Forall_cons in Hok2 as [_ Hok2].
    do 2 f_equal. apply (IH rest1') with r2; cbn; [lia|done..].
Qed.
End URIInjective.

(** ** The encoder on concatenations *)

(** Encoding two strings one after the other encodes their
    concatenation: when both encode, no surrogate pair straddles the
    seam. *)
Lemma Encode_app (s1 s2 r1 r2 : jsstring) :
  URI.Encode s1 = inr r1 -> URI.Encode s2 = inr r2 ->
  URI.Encode (s1 ++ s2) = inr (r1 ++ r2).
Proof.
  revert r1. induction s1 as [s1 IH] using (induction_ltof1 _ (@length N)).
  unfold ltof in IH. intros r1 He1 He2.
  destruct s1 as [|c rest]; [by injection He1 as <-|].
  cbn [URI.Encode List.app] in He1 |- *.
  destruct (URI.unescaped c).
  { destruct (URI.Encode rest) as [|r'] eqn:Hr; [discriminate|].
    injection He1 as <-. by rewrite (IH rest ltac:(cbn; lia) r' Hr He2). }
  destruct (URI.is_trailing_surrogate c); [discriminate|].
  destruct (URI.is_leading_surrogate c).
  - destruct rest as [|trail rest']; [discriminate|]. cbn [List.app].
    destruct (URI.is_trailing_surrogate trail); [|discriminate].
    destruct (URI.Encode rest') as [|r'] eqn:Hr; [discriminate|].
    injection He1 as <-.
    by rewrite (IH rest' ltac:(cbn; lia) r' Hr He2), app_assoc.
  - destruct (URI.Encode rest) as [|r'] eqn:Hr; [discriminate|].
    injection He1 as <-.
    by rewrite (IH rest ltac:(cbn; lia) r' Hr He2), app_assoc.
Qed.

(** The comma of [Array.prototype.join] is escaped. *)
Lemma Encode_comma : URI.Encode (js ",") = inr (js "%2C").
Proof. reflexivity. Qed.

Lemma comma_join_join_with (ss : list jsstring) :
  comma_join ss = join_with (js ",") ss.
Proof.
  induction ss as [|s [|s' ss] IH]; [done|done|].
  change (comma_join (s :: s' :: ss))
    with (s ++ js "," ++ comma_join (s' :: ss)).
  by rewrite IH.
Qed.

(** The encoding of strings joined with commas is the encodings joined
    with ["%2C"]. *)
Lemma Encode_join (ss rs : list jsstring) :
  Forall2 (fun s r => URI.Encode s = inr r) ss rs ->
  URI.Encode (join_with (js ",") ss) = inr (join_with (js "%2C") rs).
Proof.
  induction 1 as [|s r ss rs Hs Hrest IH]; [done|].
  destruct Hrest as [|s' r' ss rs Hs' Hrest]; [done|].
  change (join_with (js ",") (s :: s' :: ss))
    with (s ++ js "," ++ join_with (js ",") (s' :: ss)).
  change (join_with (js "%2C") (r :: r' :: rs))
    with (r ++ js "%2C" ++ join_with (js "%2C") (r' :: rs)).
  apply Encode_app; [done|]. by apply Encode_app; [apply Encode_comma|].
Qed.

(** ** The length of an encoding *)

Lemma escape_length cp :
  (3 <= length (URI.escape cp) <= 12)%nat
  /\ (cp < 0x10000 -> (length (URI.escape cp) <= 9)%nat).
Proof.
  unfold URI.escape, URI.utf8.
  destruct (cp <? 0x80) eqn:H1; [cbn; lia|].
  destruct (cp <? 0x800) eqn:H2; [cbn; lia|].
  destruct (cp <? 0x10000) eqn:H3; [cbn; lia|].
  apply N.ltb_ge in H3. cbn. lia.
Qed.

(** Each unit of the input gives between one and nine units of output. *)
Lemma Encode_length (s r : jsstring) :
  code_units_ok s -> URI.Encode s = inr r ->
  (length s <= length r <= 9 * length s)%nat.
Proof.
  revert r. induction s as [s IH] using (induction_ltof1 _ (@length N)).
  unfold ltof in IH. intros r Hok He.
  destruct s as [|c rest]; [by injection He as <-|].
  apply Forall_cons in Hok as [Hc Hok].
  apply (URIInjective.Encode_cons _ _ _ Hc) in He
    as [(_ & r' & He & ->)
       | (_ & [(_ & _ & r' & He & ->)
              | (t & rest' & r' & -> & _ & _ & He & ->)])].
  - specialize (IH rest ltac:(cbn; lia) r' Hok He). cbn [length]. lia.
  - specialize (IH rest ltac:(cbn; lia) r' Hok He).
    destruct (escape_length c) as [? Hbmp]. specialize (Hbmp Hc).
    rewrite length_app. cbn [length]. lia.
  - apply Forall_cons in Hok as [_ Hok].
    specialize (IH rest' ltac:(cbn; lia) r' Hok He).
    destruct (escape_length (URI.surrogate_pair_to_code_point c t)) as [? _].
    rewrite length_app. cbn [length]. lia.
Qed.

(** [!query] holds for exactly two values: [undefined] and the empty
    string. *)
Lemma ToBoolean_false (q : option QueryValue) :
  ToBoolean q = false <-> q = None \/ q = Some (QString []).
Proof.
  split.
  - destruct q as [[[|c s]|items|props]|]; cbn; intros H;
      try discriminate; auto.
  - by intros [-> | ->].
Qed.


(** ** Serialisation and freshness *)

(** A number that is not finite is written [null], and both zeros are
    written [0]: the text does not tell them apart. *)
Lemma JSON_number_lossy {rt : Runtime} (negative : bool) :
  JSON_stringify (VNumber (S754_infinity negative)) = JSON_stringify VNull
  /\ JSON_stringify (VNumber S754_nan) = JSON_stringify VNull
  /\ JSON_stringify (VNumber (S754_zero true))
     = JSON_stringify (VNumber (S754_zero false)).
Proof. by repeat split. Qed.

(** A request without [If-None-Match] and [If-Modified-Since] is never
    fresh. *)
Lemma unconditional_stale (reqHeaders : gmap string string) (etag : string) :
  reqHeaders !! "if-none-match" = None ->
  reqHeaders !! "if-modified-since" = None ->
  Fresh.fresh reqHeaders etag = false.
Proof. intros Hn Hm. unfold Fresh.fresh. by rewrite Hn, Hm. Qed.

(** [If-None-Match: *] alone makes a request fresh, whatever the tag. *)
Lemma any_tag_fresh (reqHeaders : gmap string string) (etag : string) :
  reqHeaders !! "if-none-match" = Some "*" ->
  reqHeaders !! "if-modified-since" = None ->
  reqHeaders !! "cache-control" = None ->
  Fresh.fresh reqHeaders etag = true.
Proof. intros Hn Hm Hc. unfold Fresh.fresh. by rewrite Hn, Hm, Hc. Qed.

Section Paths_of_app.

Context {rt : Runtime}.

(** ** The paths of [app] *)

(** The route starts from the [res] the cors middleware leaves. *)
Lemma app_enters req w :
  app req w = search_handler req (set_res cors_res w).
Proof. reflexivity. Qed.

(** [res.json] on the [res] of the route with a status that is not 2xx:
    the text goes out under that status. *)
Lemma res_json_error (req : Request) (w : World) (code : Z) (body : Value) :
  (code <? 200)%Z || (300 <=? code)%Z = true ->
  code <> 204%Z -> code <> 304%Z ->
  (res_status code;; res_json req body) (set_res cors_res w)
  = (Return tt,
     answered {| http_status := code; http_headers := cors_headers;
                 http_body := JSON_stringify body |} w).
Proof.
  intros Hcode H204 H304.
  unfold mbind, M_bind, res_status, res_json, res_send, req_fresh.
  cbn [res set_res statusCode headers headersSent].
  assert (((200 <=? code)%Z && (code <? 300)%Z || (code =? 304)%Z) = false)
    as -> by lia.
  cbn [andb]. rewrite bool_decide_eq_false_2 by (intros [?|?]; done).
  reflexivity.
Qed.

(** [res.json] on the [res] of the route with the status 200 it starts
    with: the request headers decide between the 200 and the 304. *)
Lemma res_json_ok (req : Request) (w : World) (data : Value) :
  res_json req data (set_res cors_res w)
  = (Return tt,
     answered (if fresh_for req data then not_modified_response
               else ok_response data) w).
Proof.
  unfold res_json, res_send, req_fresh, fresh_for.
  cbn [res set_res statusCode headers headersSent cors_res].
  change ((200 <=? 200)%Z && (200 <? 300)%Z || (200 =? 304)%Z) with true.
  cbn [andb].
  destruct (Fresh.fresh (req_headers req) (etag_fn (JSON_stringify data)));
    reflexivity.
Qed.

Section Paths.

Variables (req : Request) (w : World).

Local Abbreviation query := (req_query req !! js "query").
Local Abbreviation key := (TMDB_API_KEY (service w)).

Lemma app_missing :
  ToBoolean query = false ->
  app req w = (Return tt, answered missing_query_response w).
Proof.
  intros Hq. rewrite app_enters. unfold search_handler.
  cbv zeta. rewrite Hq. cbn [negb].
  rewrite res_json_error; [reflexivity | reflexivity | discriminate..].
Qed.

Lemma app_url_throws e :
  ToBoolean query = true ->
  search_url key query = inl e ->
  app req w = (Return tt, answered fetch_error_response w).
Proof.
  intros Hq Hu. rewrite app_enters. unfold search_handler.
  cbv zeta. rewrite Hq. cbn [negb].
  rewrite (try_catch_Throw _ _ _ e (set_res cors_res w)).
  - rewrite res_json_error; [reflexivity | reflexivity | discriminate..].
  - unfold mbind, M_bind, get_service. cbn [service set_res].
    rewrite Hu. reflexivity.
Qed.

(** Up to the first [await]: the URL is built and the call goes out. *)
Lemma body_after_fetch url (k : Response -> M unit) :
  search_url key query = inr url ->
  (svc ← get_service;
   u ← eval (search_url (TMDB_API_KEY svc) query);
   response ← fetch u ≫= await;
   k response) (set_res cors_res w)
  = (await (upstream w url) ≫= k) (log_outbound url (set_res cors_res w)).
Proof.
  intros Hu. unfold mbind at 1 2, M_bind at 1 2, get_service.
  cbn [service set_res]. rewrite Hu.
  reflexivity.
Qed.

(** With a truthy [query] and a URL, what is left of the handler is the
    two awaits, the relay and the [catch]. *)
Lemma app_calls url :
  ToBoolean query = true ->
  search_url key query = inr url ->
  app req w
  = try_catch
      (response ← await (upstream w url);
       data ← await (Response_json response);
       res_json req data)
      (fun err =>
         res_status 500;; res_json req (error_body "Error fetching data"))
      (log_outbound url (set_res cors_res w)).
Proof.
  intros Hq Hu. rewrite app_enters. unfold search_handler.
  cbv zeta. rewrite Hq. cbn [negb].
  unfold try_catch. by rewrite (body_after_fetch url _ Hu).
Qed.

(** The [catch] after the call went out. *)
Lemma caught_after_call url :
  (res_status 500;; res_json req (error_body "Error fetching data"))
    (log_outbound url (set_res cors_res w))
  = (Return tt, answered fetch_error_response (log_outbound url w)).
Proof.
  change (log_outbound url (set_res cors_res w))
    with (set_res cors_res (log_outbound url w)).
  rewrite res_json_error; [reflexivity | reflexivity | discriminate..].
Qed.

Lemma app_fetch_rejected url e :
  ToBoolean query = true ->
  search_url key query = inr url ->
  upstream w url = Rejected e ->
  app req w
  = (Return tt, answered fetch_error_response (log_outbound url w)).
Proof.
  intros Hq Hu Hf. rewrite (app_calls url Hq Hu), Hf.
  unfold try_catch, mbind, M_bind, await. apply caught_after_call.
Qed.

Lemma app_fetch_pending url :
  ToBoolean query = true ->
  search_url key query = inr url ->
  upstream w url = Pending ->
  app req w = (Suspended, waiting (log_outbound url w)).
Proof.
  intros Hq Hu Hf. rewrite (app_calls url Hq Hu), Hf. reflexivity.
Qed.

Section Fulfilled.

Variables (url : jsstring) (response : Response).
Hypothesis Hq : ToBoolean query = true.
Hypothesis Hu : search_url key query = inr url.
Hypothesis Hf : upstream w url = Fulfilled response.

(** After the fetch is fulfilled, the body promise decides. *)
Lemma app_fulfilled :
  app req w
  = try_catch
      (data ← await (Response_json response); res_json req data)
      (fun err =>
         res_status 500;; res_json req (error_body "Error fetching data"))
      (log_outbound url (set_res cors_res w)).
Proof. rewrite (app_calls url Hq Hu), Hf. reflexivity. Qed.

Lemma app_body_rejected e :
  Response_json response = Rejected e ->
  app req w
  = (Return tt, answered fetch_error_response (log_outbound url w)).
Proof.
  intros Hj. rewrite app_fulfilled, Hj.
  unfold try_catch, mbind, M_bind, await. apply caught_after_call.
Qed.

Lemma app_body_pending :
  Response_json response = Pending ->
  app req w = (Suspended, waiting (log_outbound url w)).
Proof. intros Hj. rewrite app_fulfilled, Hj. reflexivity. Qed.

(** The body decoded: the relay, as a 200 or as a 304. *)
Lemma app_relayed data :
  Response_json response = Fulfilled data ->
  app req w
  = (Return tt,
     answered (if fresh_for req data then not_modified_response
               else ok_response data) (log_outbound url w)).
Proof.
  intros Hj. rewrite app_fulfilled, Hj.
  unfold try_catch, mbind, M_bind, await.
  change (log_outbound url (set_res cors_res w))
    with (set_res cors_res (log_outbound url w)).
  rewrite res_json_ok. reflexivity.
Qed.

Lemma app_ok data :
  Response_json response = Fulfilled data ->
  fresh_for req data = false ->
  app req w
  = (Return tt, answered (ok_response data) (log_outbound url w)).
Proof.
  intros Hj Hfresh. rewrite (app_relayed data Hj), Hfresh. reflexivity.
Qed.

Lemma app_not_modified data :
  Response_json response = Fulfilled data ->
  fresh_for req data = true ->
  app req w
  = (Return tt, answered not_modified_response (log_outbound url w)).
Proof.
  intros Hj Hfresh. rewrite (app_relayed data Hj), Hfresh. reflexivity.
Qed.

End Fulfilled.

(** Every run of [app] takes one of the paths. *)
Lemma app_Handled : Handled req w (app req w).
Proof.
  destruct (ToBoolean query) eqn:Hq.
  2: { rewrite (app_missing Hq). exact (Handled_missing req w Hq). }
  destruct (search_url key query) as [e|url] eqn:Hu.
  { rewrite (app_url_throws e Hq Hu).
    exact (Handled_url_throws req w e Hq Hu). }
  destruct (upstream w url) as [response|e|] eqn:Hf.
  - destruct (Response_json response) as [data|e|] eqn:Hj.
    + destruct (fresh_for req data) eqn:Hfresh.
      * rewrite (app_not_modified url response Hq Hu Hf data Hj Hfresh).
        exact (Handled_not_modified req w url response data
                 Hq Hu Hf Hj Hfresh).
      * rewrite (app_ok url response Hq Hu Hf data Hj Hfresh).
        exact (Handled_ok req w url response data Hq Hu Hf Hj Hfresh).
    + rewrite (app_body_rejected url response Hq Hu Hf e Hj).
      exact (Handled_body_rejected req w url response e Hq Hu Hf Hj).
    + rewrite (app_body_pending url response Hq Hu Hf Hj).
      exact (Handled_body_pending req w url response Hq Hu Hf Hj).
  - rewrite (app_fetch_rejected url e Hq Hu Hf).
    exact (Handled_fetch_rejected req w url e Hq Hu Hf).
  - rewrite (app_fetch_pending url Hq Hu Hf).
    exact (Handled_fetch_pending req w url Hq Hu Hf).
Qed.

End Paths.

End Paths_of_app.

(** Case analysis on the path a run takes, with the facts of the path
    named [Hq] (validation), [Hu] (the URL), [Hf] (the fetch), [Hj] (the
    body) and [Hfresh] (the freshness of the request). *)
Ltac by_paths req w :=
  destruct (app_Handled req w)
    as [Hq|e Hq Hu|url e Hq Hu Hf|url Hq Hu Hf|url r e Hq Hu Hf Hj
       |url r Hq Hu Hf Hj|url r d Hq Hu Hf Hj Hfresh
       |url r d Hq Hu Hf Hj Hfresh].


Section Claims.

Context {rt : Runtime}.

(** ** Validation *)

(** C1. A request to /search whose [query] is absent or is the empty
    string is answered with status 400 and the body
    [{ "error": "Missing query parameter" }], and no outbound call is
    made. *)
Theorem missing_query_400 (req : Request) (w : World) :
  req_query req !! js "query" = None
  \/ req_query req !! js "query" = Some (QString []) ->
  (app req w).1 = Return tt
  /\ (exists r,
        wire (app req w).2 = wire w ++ [r]
        /\ http_status r = 400%Z
        /\ http_body r
           = JSON_stringify
               (VObject [(js "error", VString (js "Missing query parameter"))]))
  /\ outbound (app req w).2 = outbound w.
Proof.
  intros Hq.
  apply ToBoolean_false in Hq.
  rewrite (app_missing req w Hq). cbn [fst snd].
  split; [reflexivity|]. split; [|reflexivity].
  exists missing_query_response. repeat split.
Qed.

(** ** Relay *)


(** C3. For a request with a non-empty (truthy) [query], if the upstream
    call fails, by a rejected fetch or by a body that does not decode, the
    answer has status 500 and the body
    [{ "error": "Error fetching data" }], and the one call that went out
    is the only one: nothing is retried. *)
Theorem upstream_failure_500 (req : Request) (w : World)
    (url : jsstring) (e : Error) :
  ToBoolean (req_query req !! js "query") = true ->
  search_url (TMDB_API_KEY (service w)) (req_query req !! js "query")
  = inr url ->
  upstream w url = Rejected e
  \/ (exists response,
        upstream w url = Fulfilled response
        /\ Response_json response = Rejected e) ->
  (app req w).1 = Return tt
  /\ (exists r,
        wire (app req w).2 = wire w ++ [r]
        /\ http_status r = 500%Z
        /\ http_body r
           = JSON_stringify
               (VObject [(js "error", VString (js "Error fetching data"))]))
  /\ outbound (app req w).2 = outbound w ++ [url].
Proof.
  intros Hq Hu [Hf | (response & Hf & Hj)].
  - rewrite (app_fetch_rejected req w url e Hq Hu Hf).
    split; [reflexivity|]. split; [|reflexivity].
    exists fetch_error_response. repeat split.
  - rewrite (app_body_rejected req w url response Hq Hu Hf e Hj).
    split; [reflexivity|]. split; [|reflexivity].
    exists fetch_error_response. repeat split.
Qed.

(** ** Cross-origin header *)

Lemma cors_headers_allow_any_origin :
  cors_headers !! "Access-Control-Allow-Origin" = Some "*".
Proof.
  unfold cors_headers.
  rewrite lookup_insert_ne by discriminate.
  apply lookup_insert_eq.
Qed.

(** The responses a run adds are none or one of the four shapes. *)
Lemma app_responses (req : Request) (w : World) :
  exists rs,
    wire (app req w).2 = wire w ++ rs
    /\ (((app req w).1 = Suspended /\ rs = [])
        \/ ((app req w).1 = Return tt
            /\ exists r, rs = [r] /\ route_response r)).
Proof.
  assert (forall (r : HttpResponse) (w' : World),
            wire w' = wire w -> route_response r ->
            exists rs,
              wire (answered r w') = wire w ++ rs
              /\ ((Return tt = @Suspended unit /\ rs = [])
                  \/ (@Return unit tt = Return tt
                      /\ exists r', rs = [r'] /\ route_response r')))
    as Hanswered.
  { intros r w' Hw' Hr. exists [r]. split.
    - cbn [answered write wire set_res]. by rewrite Hw'.
    - right. split; [reflexivity|]. by exists r. }
  assert (forall w' : World,
            wire w' = wire w ->
            exists rs,
              wire (waiting w') = wire w ++ rs
              /\ ((@Suspended unit = Suspended /\ rs = [])
                  \/ (Suspended = Return tt
                      /\ exists r', rs = [r'] /\ route_response r')))
    as Hwaiting.
  { intros w' Hw'. exists []. split.
    - cbn [waiting wire set_res]. by rewrite Hw', app_nil_r.
    - left. split; reflexivity. }
  unfold route_response in Hanswered.
  by_paths req w; cbn [fst snd];
    first [ apply Hwaiting; reflexivity
          | apply Hanswered; [reflexivity|] ].
  - left; reflexivity.
  - right; left; reflexivity.
  - right; left; reflexivity.
  - right; left; reflexivity.
  - right; right; left. exists d. reflexivity.
  - right; right; right. reflexivity.
Qed.

(** Each shape carries the header of the cors middleware. *)
Lemma route_response_cors (r : HttpResponse) :
  route_response r ->
  http_headers r !! "Access-Control-Allow-Origin" = Some "*".
Proof.
  intros [-> | [-> | [[data ->] | ->]]].
  - apply cors_headers_allow_any_origin.
  - apply cors_headers_allow_any_origin.
  - apply cors_headers_allow_any_origin.
  - apply (lookup_insert_eq (M := gmap string)).
Qed.

(** C4. Every response the service writes, the 200, the 400 and the 500
    alike, carries [Access-Control-Allow-Origin: *]. *)
Theorem responses_allow_any_origin (req : Request) (w : World) :
  exists rs,
    wire (app req w).2 = wire w ++ rs
    /\ Forall
         (fun r => http_headers r !! "Access-Control-Allow-Origin" = Some "*")
         rs.
Proof.
  destruct (app_responses req w) as (rs & Hw & [[_ ->] | [_ (r & -> & Hr)]]).
  - exists []. split; [exact Hw | constructor].
  - exists [r]. split; [exact Hw|].
    constructor; [|constructor]. by apply route_response_cors.
Qed.

(** ** The outbound call *)

(** The calls of a run: none when validation fails or the URL cannot be
    built, the URL otherwise. *)
Lemma app_outbound (req : Request) (w : World) :
  outbound (app req w).2
  = outbound w ++
    if ToBoolean (req_query req !! js "query") then
      match search_url (TMDB_API_KEY (service w)) (req_query req !! js "query")
      with
      | inr url => [url]
      | inl _ => []
      end
    else [].
Proof.
  by_paths req w;
    rewrite Hq; try rewrite Hu;
    cbn [snd answered waiting write outbound set_res log_outbound];
    rewrite ?app_nil_r; reflexivity.
Qed.

(** C5. For a non-empty (truthy) [query] value, the URL the handler
    fetches is the search endpoint with the configured key and with
    [encodeURIComponent] of the value; when that coercion throws, no call
    goes out. *)
Theorem outbound_url (req : Request) (w : World) (q : QueryValue) :
  req_query req !! js "query" = Some q ->
  ToBoolean (Some q) = true ->
  outbound (app req w).2
  = outbound w ++
    match encodeURIComponent (Some q) with
    | inr encoded =>
        [js "https://api.themoviedb.org/3/search/movie?api_key="
         ++ TMDB_API_KEY (service w) ++ js "&query=" ++ encoded]
    | inl _ => []
    end.
Proof.
  intros Hlook Hq. rewrite app_outbound, Hlook, Hq.
  unfold search_url. by destruct (encodeURIComponent (Some q)).
Qed.

(** ** Startup *)

(** C6. The key is the environment's [TMDB_API_KEY] when that is set and
    non-empty and the built-in key otherwise; the port passed to
    [app.listen] is the environment's [PORT] when that is set and
    non-empty and the number 3000 otherwise. *)
Theorem startup_reads_environment (env : gmap jsstring jsstring) :
  TMDB_API_KEY (startup env)
  = match env !! js "TMDB_API_KEY" with
    | Some k =>
        if decide (k = []) then js "f81af962f969df1a8bebbb9f6b7f17b7" else k
    | None => js "f81af962f969df1a8bebbb9f6b7f17b7"
    end
  /\ PORT (startup env)
     = match env !! js "PORT" with
       | Some p =>
           if decide (p = []) then VNumber (Number_of_Z 3000) else VString p
       | None => VNumber (Number_of_Z 3000)
       end.
Proof.
  unfold startup, env_or; cbn [TMDB_API_KEY PORT]. split.
  - destruct (env !! js "TMDB_API_KEY") as [[|c k]|]; by try case_decide.
  - destruct (env !! js "PORT") as [[|c p]|]; by try case_decide.
Qed.

(** ** Determinism and statelessness *)

(** A run leaves the constants of the process and the upstream as they
    were. *)
Lemma app_keeps_service (req : Request) (w : World) :
  service (app req w).2 = service w /\ upstream (app req w).2 = upstream w.
Proof. by_paths req w; split; reflexivity. Qed.

(** Two runs of the same request in worlds with the same constants and
    the same upstream answer for the URL of the request end alike and
    write the same responses. *)
Lemma app_deterministic (req : Request) (w1 w2 : World) :
  service w1 = service w2 ->
  (forall url,
     search_url (TMDB_API_KEY (service w1)) (req_query req !! js "query")
     = inr url ->
     upstream w1 url = upstream w2 url) ->
  (app req w1).1 = (app req w2).1
  /\ exists rs,
       wire (app req w1).2 = wire w1 ++ rs
       /\ wire (app req w2).2 = wire w2 ++ rs.
Proof.
  intros Hs Hagree.
  by_paths req w1;
    try (rewrite (Hagree url Hu) in Hf); try rewrite Hs in Hu.
  - rewrite (app_missing req w2 Hq).
    split; [reflexivity | eexists; split; reflexivity].
  - rewrite (app_url_throws req w2 e Hq Hu).
    split; [reflexivity | eexists; split; reflexivity].
  - rewrite (app_fetch_rejected req w2 url e Hq Hu Hf).
    split; [reflexivity | eexists; split; reflexivity].
  - rewrite (app_fetch_pending req w2 url Hq Hu Hf).
    split; [reflexivity|]. exists []. by rewrite !app_nil_r.
  - rewrite (app_body_rejected req w2 url r Hq Hu Hf e Hj).
    split; [reflexivity | eexists; split; reflexivity].
  - rewrite (app_body_pending req w2 url r Hq Hu Hf Hj).
    split; [reflexivity|]. exists []. by rewrite !app_nil_r.
  - rewrite (app_ok req w2 url r Hq Hu Hf d Hj Hfresh).
    split; [reflexivity | eexists; split; reflexivity].
  - rewrite (app_not_modified req w2 url r Hq Hu Hf d Hj Hfresh).
    split; [reflexivity | eexists; split; reflexivity].
Qed.

(** C7. The handler is deterministic relative to the upstream: two runs
    on the same request, with the same configuration and the same
    upstream answer, end alike and write identical responses (status,
    headers and body); and a run changes nothing a later request can
    observe: the configuration and the upstream are as before, and any
    later request is answered as it would have been without the run. *)
Theorem relay_deterministic (req : Request) (w1 w2 : World) :
  service w1 = service w2 ->
  (forall url,
     search_url (TMDB_API_KEY (service w1)) (req_query req !! js "query")
     = inr url ->
     upstream w1 url = upstream w2 url) ->
  ((app req w1).1 = (app req w2).1
   /\ exists rs,
        wire (app req w1).2 = wire w1 ++ rs
        /\ wire (app req w2).2 = wire w2 ++ rs)
  /\ (service (app req w1).2 = service w1
      /\ upstream (app req w1).2 = upstream w1)
  /\ forall later : Request,
       (app later (app req w1).2).1 = (app later w1).1
       /\ exists rs,
            wire (app later (app req w1).2).2 = wire (app req w1).2 ++ rs
            /\ wire (app later w1).2 = wire w1 ++ rs.
Proof.
  intros Hs Hagree.
  split; [by apply app_deterministic|].
  destruct (app_keeps_service req w1) as [Hs' Hu'].
  split; [done|].
  intros later. apply app_deterministic; [done|].
  intros url _. by rewrite Hu'.
Qed.

(** ** One response per request *)

(** With an upstream call that settles the handler returns; with one
    that does not, it stays suspended. *)
Lemma app_returns (req : Request) (w : World) :
  settles req w -> (app req w).1 = Return tt.
Proof.
  intros Hsettles.
  by_paths req w;
    try reflexivity; specialize (Hsettles url Hq Hu); unfold settled in Hsettles;
    rewrite Hf in Hsettles; by exfalso.
Qed.

Lemma app_suspended (req : Request) (w : World) :
  ~ settles req w -> (app req w).1 = Suspended.
Proof.
  intros Hnot.
  by_paths req w;
    try reflexivity; exfalso; apply Hnot; intros url' Hq' Hu';
    unfold settled; try congruence.
  - assert (url' = url) as -> by congruence. by rewrite Hf.
  - assert (url' = url) as -> by congruence. rewrite Hf. congruence.
  - assert (url' = url) as -> by congruence. rewrite Hf. congruence.
  - assert (url' = url) as -> by congruence. rewrite Hf. congruence.
Qed.

(** C8, as the code has it. No request is answered twice, and every
    response is the 200 relay, the 304 that Express puts in its place for
    a fresh conditional request, the 400 validation error or the 500
    fetch error. A request whose upstream call settles (one that makes no
    call included) is answered exactly once; a request whose upstream call
    never settles is left suspended and gets no response. *)
Theorem one_response_when_upstream_settles (req : Request) (w : World) :
  (exists rs,
     wire (app req w).2 = wire w ++ rs
     /\ (rs = [] \/ exists r, rs = [r] /\ route_response r))
  /\ (settles req w ->
      (app req w).1 = Return tt
      /\ exists r, wire (app req w).2 = wire w ++ [r] /\ route_response r)
  /\ (~ settles req w ->
      (app req w).1 = Suspended /\ wire (app req w).2 = wire w).
Proof.
  destruct (app_responses req w) as (rs & Hw & Hrs). split; [|split].
  - exists rs. split; [done|].
    destruct Hrs as [[_ ->] | [_ Hone]]; [by left | by right].
  - intros Hsettles. pose proof (app_returns req w Hsettles) as Hret.
    split; [done|].
    destruct Hrs as [[Hsusp _] | [_ (r & -> & Hr)]].
    + rewrite Hret in Hsusp. discriminate.
    + by exists r.
  - intros Hnot. pose proof (app_suspended req w Hnot) as Hsusp.
    split; [done|].
    destruct Hrs as [[_ ->] | [Hret _]].
    + by rewrite Hw, app_nil_r.
    + rewrite Hsusp in Hret. discriminate.
Qed.

(** ** The upstream's status code *)

(** C9, as the code has it. The upstream's own status code plays no
    part: whenever the fetch is fulfilled and the body decodes, a 4xx or
    5xx answer included, the caller gets the relay and never the 500
    error response: status 200 with the [JSON.stringify] text of the
    upstream's document, or, when the request is fresh, the 304 without a
    body that Express puts in its place. *)
Theorem upstream_status_ignored (req : Request) (w : World)
    (url : jsstring) (status : Z) (data : Value) :
  ToBoolean (req_query req !! js "query") = true ->
  search_url (TMDB_API_KEY (service w)) (req_query req !! js "query")
  = inr url ->
  upstream w url
  = Fulfilled {| Response_status := status; Response_json := Fulfilled data |} ->
  exists r,
    wire (app req w).2 = wire w ++ [r]
    /\ (if fresh_for req data
        then http_status r = 304%Z /\ http_body r = []
        else http_status r = 200%Z /\ http_body r = JSON_stringify data)
    /\ http_status r <> 500%Z
    /\ (req_headers req !! "if-none-match" = None ->
        req_headers req !! "if-modified-since" = None ->
        http_status r = 200%Z /\ http_body r = JSON_stringify data).
Proof.
  intros Hq Hu Hf.
  rewrite (app_relayed req w url _ Hq Hu Hf data eq_refl).
  eexists. split; [reflexivity|].
  pose proof (unconditional_stale (req_headers req)
                (etag_fn (JSON_stringify data))) as Hstale.
  fold (fresh_for req data) in Hstale.
  destruct (fresh_for req data).
  - split; [split; reflexivity|]. split; [discriminate|].
    intros Hn Hm. by specialize (Hstale Hn Hm).
  - split; [split; reflexivity|]. split; [discriminate|].
    intros _ _. split; reflexivity.
Qed.

(** ** Arrays and objects in [query] *)

(** [Array.prototype.join] on an array of strings. *)
Lemma ToString_array_of_strings (ss : list jsstring) :
  ToString (QArray (QString <$> ss)) = inr (comma_join ss).
Proof.
  induction ss as [|s ss IH]; [reflexivity|].
  destruct ss as [|s' ss]; [reflexivity|].
  change (ToString (QArray (QString <$> s :: s' :: ss)))
    with (match ToString (QArray (QString <$> s' :: ss)) with
          | inl e => inl e
          | inr r => inr (s ++ js "," ++ r)
          end).
  by rewrite IH.
Qed.

(** A 400 is only written on the validation path. *)
Lemma app_400_missing (req : Request) (w : World) (resp : HttpResponse) :
  wire (app req w).2 = wire w ++ [resp] ->
  http_status resp = 400%Z ->
  ToBoolean (req_query req !! js "query") = false.
Proof.
  intros Hr Hst.
  by_paths req w; [exact Hq|..];
    cbn [snd answered waiting write wire set_res log_outbound] in Hr;
    try (apply app_inv_head in Hr; injection Hr as <-; discriminate Hst);
    rewrite <- (app_nil_r (wire w)) in Hr at 1;
    apply app_inv_head in Hr; discriminate Hr.
Qed.

(** C10, as the code has it. Validation accepts every truthy value,
    arrays and objects included: such a [query] is never answered with
    400. It is coerced to a string by [encodeURIComponent] (an array of
    strings to its elements joined with commas); when the coercion
    succeeds the result goes into the URL of the one upstream call, and
    when it throws no call goes out and the answer is the 500 error
    response. *)
Theorem arrays_and_objects_accepted (req : Request) (w : World)
    (v : QueryValue) :
  req_query req !! js "query" = Some v ->
  (exists items, v = QArray items) \/ (exists props, v = QObject props) ->
  ToBoolean (Some v) = true
  /\ (exists rs,
        wire (app req w).2 = wire w ++ rs
        /\ Forall (fun r => http_status r <> 400%Z) rs)
  /\ outbound (app req w).2
     = outbound w ++
       match encodeURIComponent (Some v) with
       | inr encoded => [tmdb_search (TMDB_API_KEY (service w)) encoded]
       | inl _ => []
       end
  /\ (forall e,
        encodeURIComponent (Some v) = inl e ->
        wire (app req w).2 = wire w ++ [fetch_error_response])
  /\ (forall ss, v = QArray (QString <$> ss) -> ToString v = inr (comma_join ss)).
Proof.
  intros Hlook Hshape.
  assert (ToBoolean (Some v) = true) as Htruthy
    by (destruct Hshape as [[items ->] | [props ->]]; reflexivity).
  split; [done|]. split; [|split; [|split]].
  - destruct (app_responses req w)
      as (rs & Hw & [[_ ->] | [_ (r & -> & Hr)]]).
    + exists []. split; [exact Hw | constructor].
    + exists [r]. split; [exact Hw|]. constructor; [|constructor].
      intros Hst. pose proof (app_400_missing req w r Hw Hst) as Hfalse.
      rewrite Hlook, Htruthy in Hfalse. discriminate Hfalse.
  - rewrite app_outbound, Hlook, Htruthy. unfold search_url.
    by destruct (encodeURIComponent (Some v)).
  - intros e He.
    assert (ToBoolean (req_query req !! js "query") = true) as Hq'
      by (by rewrite Hlook).
    assert (search_url (TMDB_API_KEY (service w)) (req_query req !! js "query")
            = inl e) as Hu by (unfold search_url; by rewrite Hlook, He).
    rewrite (app_url_throws req w e Hq' Hu). reflexivity.
  - intros ss ->. apply ToString_array_of_strings.
Qed.

End Claims.

Section Extras.

Context {rt : Runtime}.

(** * Further properties of server.js *)

(** ** What a run depends on *)

(** A run looks at the request only through the truthiness of [query],
    the URL built from it and the request headers. *)
Lemma app_depends (req1 req2 : Request) (w : World) :
  ToBoolean (req_query req1 !! js "query")
  = ToBoolean (req_query req2 !! js "query") ->
  search_url (TMDB_API_KEY (service w)) (req_query req1 !! js "query")
  = search_url (TMDB_API_KEY (service w)) (req_query req2 !! js "query") ->
  req_headers req1 = req_headers req2 ->
  app req1 w = app req2 w.
Proof.
  intros Hb Hs Hh.
  assert (forall d, fresh_for req1 d = fresh_for req2 d) as Hfr
    by (intros d; unfold fresh_for; by rewrite Hh).
  by_paths req1 w; rewrite Hb in Hq; try rewrite Hs in Hu.
  - rewrite (app_missing req2 w Hq). reflexivity.
  - rewrite (app_url_throws req2 w e Hq Hu). reflexivity.
  - rewrite (app_fetch_rejected req2 w url e Hq Hu Hf). reflexivity.
  - rewrite (app_fetch_pending req2 w url Hq Hu Hf). reflexivity.
  - rewrite (app_body_rejected req2 w url r Hq Hu Hf e Hj). reflexivity.
  - rewrite (app_body_pending req2 w url r Hq Hu Hf Hj). reflexivity.
  - fold (fresh_for req1 d) in Hfresh. rewrite Hfr in Hfresh.
    rewrite (app_ok req2 w url r Hq Hu Hf d Hj Hfresh). reflexivity.
  - fold (fresh_for req1 d) in Hfresh. rewrite Hfr in Hfresh.
    rewrite (app_not_modified req2 w url r Hq Hu Hf d Hj Hfresh).
    reflexivity.
Qed.

(** X1. The URL is built inside the [try]: when [encodeURIComponent]
    throws on a truthy [query], the answer is the 500 error response and
    no call goes out. *)
Theorem coercion_failure_500 (req : Request) (w : World) (e : Error) :
  ToBoolean (req_query req !! js "query") = true ->
  encodeURIComponent (req_query req !! js "query") = inl e ->
  (app req w).1 = Return tt
  /\ wire (app req w).2
     = wire w ++
       [{| http_status := 500; http_headers := cors_headers;
           http_body :=
             JSON_stringify
               (VObject [(js "error", VString (js "Error fetching data"))]) |}]
  /\ outbound (app req w).2 = outbound w.
Proof.
  intros Hq He.
  assert (search_url (TMDB_API_KEY (service w)) (req_query req !! js "query")
          = inl e) as Hu by (unfold search_url; by rewrite He).
  rewrite (app_url_throws req w e Hq Hu). repeat split.
Qed.

(** X2. A run makes at most one outbound call, and it makes none exactly
    when [query] is falsy or its coercion throws. *)
Theorem at_most_one_call (req : Request) (w : World) :
  exists calls,
    outbound (app req w).2 = outbound w ++ calls
    /\ (length calls <= 1)%nat
    /\ (calls = []
        <-> ToBoolean (req_query req !! js "query") = false
            \/ exists e,
                 encodeURIComponent (req_query req !! js "query") = inl e).
Proof.
  rewrite app_outbound. unfold search_url.
  destruct (ToBoolean (req_query req !! js "query")).
  - destruct (encodeURIComponent (req_query req !! js "query")) as [e|q].
    + exists []. repeat split; eauto.
    + eexists [_]. split; [done|]. split; [done|]. split; [done|].
      intros [? | [e ?]]; discriminate.
  - exists []. repeat split; eauto.
Qed.

(** ** What each status means *)

(** X3. A request is answered with status 400 exactly when [query] is
    absent or the empty string: validation rejects nothing else. *)
Theorem status_400_iff_missing (req : Request) (w : World) :
  (exists r, wire (app req w).2 = wire w ++ [r] /\ http_status r = 400%Z)
  <-> req_query req !! js "query" = None
      \/ req_query req !! js "query" = Some (QString []).
Proof.
  rewrite <- ToBoolean_false. split.
  - intros (resp & Hr & Hst). exact (app_400_missing req w resp Hr Hst).
  - intros Hq. rewrite (app_missing req w Hq).
    exists missing_query_response. split; reflexivity.
Qed.

(** X4. A 200 is never made up: a response with status 200 means the
    fetch of the request's URL was fulfilled and its body decoded, the
    request was not fresh, and the body of the response is the
    [JSON.stringify] text of that document. *)
Theorem status_200_only_relay (req : Request) (w : World) (resp : HttpResponse) :
  wire (app req w).2 = wire w ++ [resp] ->
  http_status resp = 200%Z ->
  exists url response data,
    search_url (TMDB_API_KEY (service w)) (req_query req !! js "query")
    = inr url
    /\ upstream w url = Fulfilled response
    /\ Response_json response = Fulfilled data
    /\ fresh_for req data = false
    /\ http_body resp = JSON_stringify data
    /\ outbound (app req w).2 = outbound w ++ [url].
Proof.
  intros Hr Hst.
  by_paths req w;
    cbn [snd answered waiting write wire set_res log_outbound outbound]
      in Hr |- *;
    try (apply app_inv_head in Hr; injection Hr as <-; try discriminate Hst);
    try (rewrite <- (app_nil_r (wire w)) in Hr at 1;
         apply app_inv_head in Hr; discriminate Hr).
  exists url, r, d. repeat split; assumption.
Qed.

(** X5. A 500 always has a cause, and its body never tells which: a
    response with status 500 carries the fixed error body, and either the
    coercion of [query] threw, or the fetch was rejected, or the body did
    not decode. *)
Theorem status_500_only_failure (req : Request) (w : World) (resp : HttpResponse) :
  wire (app req w).2 = wire w ++ [resp] ->
  http_status resp = 500%Z ->
  resp = fetch_error_response
  /\ ToBoolean (req_query req !! js "query") = true
  /\ ((exists e,
         search_url (TMDB_API_KEY (service w)) (req_query req !! js "query")
         = inl e)
      \/ exists url e,
           search_url (TMDB_API_KEY (service w)) (req_query req !! js "query")
           = inr url
           /\ (upstream w url = Rejected e
               \/ exists response,
                    upstream w url = Fulfilled response
                    /\ Response_json response = Rejected e)).
Proof.
  intros Hr Hst.
  by_paths req w;
    cbn [snd answered waiting write wire set_res log_outbound] in Hr;
    try (apply app_inv_head in Hr; injection Hr as <-; try discriminate Hst);
    try (rewrite <- (app_nil_r (wire w)) in Hr at 1;
         apply app_inv_head in Hr; discriminate Hr);
    (split; [reflexivity|]); (split; [exact Hq|]).
  - left. by exists e.
  - right. exists url, e. split; [exact Hu|]. by left.
  - right. exists url, e. split; [exact Hu|]. right. by exists r.
Qed.

(** X16. A 304 is only written in place of a relay: a response with
    status 304 has no body and no content type, keeps the cross-origin
    header, and means that the request carried [If-None-Match] or
    [If-Modified-Since], that the fetch of its URL was fulfilled and the
    body decoded, and that the request was fresh against that
    document. *)
Theorem status_304_only_fresh (req : Request) (w : World) (resp : HttpResponse) :
  wire (app req w).2 = wire w ++ [resp] ->
  http_status resp = 304%Z ->
  (http_body resp = []
   /\ http_headers resp !! "Content-Type" = None
   /\ http_headers resp !! "Access-Control-Allow-Origin" = Some "*")
  /\ (req_headers req !! "if-none-match" <> None
      \/ req_headers req !! "if-modified-since" <> None)
  /\ exists url response data,
       search_url (TMDB_API_KEY (service w)) (req_query req !! js "query")
       = inr url
       /\ upstream w url = Fulfilled response
       /\ Response_json response = Fulfilled data
       /\ fresh_for req data = true
       /\ outbound (app req w).2 = outbound w ++ [url].
Proof.
  intros Hr Hst.
  by_paths req w;
    cbn [snd answered waiting write wire set_res log_outbound outbound]
      in Hr |- *;
    try (apply app_inv_head in Hr; injection Hr as <-; try discriminate Hst);
    try (rewrite <- (app_nil_r (wire w)) in Hr at 1;
         apply app_inv_head in Hr; discriminate Hr).
  split; [repeat split|]. split.
  - destruct (req_headers req !! "if-none-match") eqn:Hn; [by left|].
    destruct (req_headers req !! "if-modified-since") eqn:Hm; [by right|].
    rewrite (unconditional_stale _ _ Hn Hm) in Hfresh. discriminate Hfresh.
  - exists url, r, d. repeat split; assumption.
Qed.

(** ** Parameters *)

(** X6. Only [query] is read of the query string: two requests with the
    same headers that agree on [query] are handled alike, whatever other
    parameters they carry, and nothing of those reaches the upstream. *)
Theorem other_parameters_ignored (req1 req2 : Request) (w : World) :
  req_query req1 !! js "query" = req_query req2 !! js "query" ->
  req_headers req1 = req_headers req2 ->
  app req1 w = app req2 w.
Proof. intros Hq Hh. apply app_depends; [by rewrite Hq..|exact Hh]. Qed.

(** X7. A repeated parameter is indistinguishable from one string with
    commas: a [query] that is an array of strings is handled as the
    string of its elements joined by commas in a request with the same
    headers, provided that string is not empty. *)
Theorem array_as_joined_string (req1 req2 : Request) (w : World)
    (ss : list jsstring) :
  req_query req1 !! js "query" = Some (QArray (QString <$> ss)) ->
  req_query req2 !! js "query" = Some (QString (comma_join ss)) ->
  req_headers req1 = req_headers req2 ->
  comma_join ss <> [] ->
  app req1 w = app req2 w.
Proof.
  intros H1 H2 Hh Hne. apply app_depends; [rewrite H1, H2..|exact Hh].
  - cbn. by destruct (comma_join ss).
  - unfold search_url, encodeURIComponent.
    by rewrite ToString_array_of_strings.
Qed.

(** ** The query component of the outbound URL *)

(** X8. A query cannot add to or cut short the upstream URL: when the
    string of a truthy [query] has 16-bit units, the query component of
    any call that goes out holds only unreserved characters and ["%"],
    so none of [& = # ? / +] or a space. *)
Theorem query_component_safe (req : Request) (w : World)
    (v : QueryValue) (s : jsstring) :
  req_query req !! js "query" = Some v ->
  ToBoolean (Some v) = true ->
  ToString v = inr s ->
  code_units_ok s ->
  exists calls,
    outbound (app req w).2 = outbound w ++ calls
    /\ Forall
         (fun url =>
            exists encoded,
              url = tmdb_search (TMDB_API_KEY (service w)) encoded
              /\ Forall url_safe encoded
              /\ forall c, c ∈ js "&=#?/+ " -> c ∉ encoded)
         calls.
Proof.
  intros Hlook Hq Hs Hok. rewrite app_outbound, Hlook, Hq.
  unfold search_url, encodeURIComponent. rewrite Hs.
  destruct (URI.Encode s) as [e|encoded] eqn:He.
  { exists []. split; [done|constructor]. }
  pose proof (URIFacts.Encode_url_safe s encoded Hok He) as Hsafe.
  eexists [_]. split; [done|]. repeat constructor.
  exists encoded. split; [done|]. split; [done|].
  intros c Hc Hin. rewrite Forall_forall in Hsafe.
  apply list_elem_of_In in Hc. vm_compute in Hc.
  destruct (Hsafe c Hin) as [Hun | ->];
    repeat (destruct Hc as [Heq | Hc];
            [first [discriminate Heq | subst c; discriminate Hun]|]);
    done.
Qed.

(** X9. Distinct string queries never meet upstream: for two different
    strings of 16-bit units, the URLs built are different. *)
Theorem search_url_injective (key s1 s2 url1 url2 : jsstring) :
  code_units_ok s1 -> code_units_ok s2 ->
  search_url key (Some (QString s1)) = inr url1 ->
  search_url key (Some (QString s2)) = inr url2 ->
  s1 <> s2 ->
  url1 <> url2.
Proof.
  unfold search_url, encodeURIComponent. cbn [ToString].
  intros Hok1 Hok2 H1 H2 Hne Hurl. apply Hne.
  destruct (URI.Encode s1) as [|r1] eqn:He1; [discriminate|].
  destruct (URI.Encode s2) as [|r2] eqn:He2; [discriminate|].
  assert (js "https://api.themoviedb.org/3/search/movie?api_key=" ++ key
          ++ js "&query=" ++ r1
          = js "https://api.themoviedb.org/3/search/movie?api_key=" ++ key
            ++ js "&query=" ++ r2) as Heq by congruence.
  do 3 apply app_inv_head in Heq. subst r2.
  by apply (URIInjective.Encode_inj s1 s2 r1).
Qed.

(** X10. A query of letters, digits and the marks [- _ . ! ~ * ' ( )]
    goes into the URL as it is. *)
Theorem plain_query_verbatim (req : Request) (w : World) (s : jsstring) :
  req_query req !! js "query" = Some (QString s) ->
  s <> [] ->
  Forall (fun c => URI.unescaped c = true) s ->
  outbound (app req w).2
  = outbound w ++
    [js "https://api.themoviedb.org/3/search/movie?api_key="
     ++ TMDB_API_KEY (service w) ++ js "&query=" ++ s].
Proof.
  intros Hlook Hne Hplain. rewrite app_outbound, Hlook.
  destruct s as [|c s]; [done|]. cbn [ToBoolean].
  unfold search_url, encodeURIComponent. cbn [ToString].
  by rewrite (URIFacts.Encode_unescaped _ Hplain).
Qed.

(** X11. A repeated parameter reaches the upstream as one value: for an
    array of strings that each encode, the query component of the call is
    their encodings joined with ["%2C"]. *)
Theorem array_query_component (req : Request) (w : World)
    (ss rs : list jsstring) :
  req_query req !! js "query" = Some (QArray (QString <$> ss)) ->
  Forall2 (fun s r => URI.Encode s = inr r) ss rs ->
  outbound (app req w).2
  = outbound w ++
    [tmdb_search (TMDB_API_KEY (service w)) (join_with (js "%2C") rs)].
Proof.
  intros Hlook Hss. rewrite app_outbound, Hlook. cbn [ToBoolean].
  unfold search_url, encodeURIComponent.
  rewrite ToString_array_of_strings, comma_join_join_with.
  by rewrite (Encode_join ss rs Hss).
Qed.

(** ** The length of the URL *)

(** X12. The URL grows linearly with the query: for a string query of
    16-bit units, the URL is the 57 units of the template and the key,
    and between one and nine units for each unit of the query. *)
Theorem search_url_length (key s url : jsstring) :
  code_units_ok s ->
  search_url key (Some (QString s)) = inr url ->
  (57 + length key + length s <= length url
   <= 57 + length key + 9 * length s)%nat.
Proof.
  unfold search_url, encodeURIComponent. cbn [ToString]. intros Hok Hu.
  destruct (URI.Encode s) as [|r] eqn:He; [discriminate|].
  pose proof (Encode_length s r Hok He).
  assert (url = js "https://api.themoviedb.org/3/search/movie?api_key="
                ++ key ++ js "&query=" ++ r) as -> by congruence.
  rewrite !length_app.
  change (length (js "https://api.themoviedb.org/3/search/movie?api_key="))
    with 50%nat.
  change (length (js "&query=")) with 7%nat. lia.
Qed.

(** ** Startup *)

(** X13. Whatever the environment, the process starts with a key that is
    not empty and a port that is not an empty string. *)
Theorem startup_never_empty (env : gmap jsstring jsstring) :
  TMDB_API_KEY (startup env) <> [] /\ PORT (startup env) <> VString [].
Proof.
  unfold startup, env_or; cbn [TMDB_API_KEY PORT]. split.
  - by destruct (env !! js "TMDB_API_KEY") as [[|c k]|].
  - by destruct (env !! js "PORT") as [[|c p]|].
Qed.

(** ** Exceptions *)

(** X14. Nothing escapes the handler: whatever the request and the
    upstream do, a run of the application returns or stays suspended, it
    never ends in an exception (the promise of the async handler is never
    rejected). *)
Theorem never_throws (req : Request) (w : World) (e : Error) :
  (app req w).1 <> Throw e.
Proof.
  destruct (app_responses req w) as (rs & _ & [[-> _] | [-> _]]);
    discriminate.
Qed.

(** ** Queries that always go out *)

(** X15. A non-empty string query without surrogate code units always
    reaches the upstream: its coercion cannot throw, and the one call of
    the run carries its encoding. *)
Theorem surrogate_free_query_forwarded (req : Request) (w : World)
    (s : jsstring) :
  req_query req !! js "query" = Some (QString s) ->
  s <> [] ->
  Forall (fun c => URI.is_leading_surrogate c = false
                   /\ URI.is_trailing_surrogate c = false) s ->
  exists encoded,
    URI.Encode s = inr encoded
    /\ outbound (app req w).2
       = outbound w ++ [tmdb_search (TMDB_API_KEY (service w)) encoded].
Proof.
  intros Hlook Hne Hs.
  destruct (URIFacts.Encode_without_surrogates s Hs) as [encoded He].
  exists encoded. split; [done|].
  rewrite app_outbound, Hlook. destruct s as [|c s]; [done|].
  cbn [ToBoolean]. unfold search_url, encodeURIComponent. cbn [ToString].
  by rewrite He.
Qed.

End Extras.

(** * The theorems at concrete requests *)

(** From here on the runtime is [sample_runtime]: Number::toString by the
    shortest-digits rule, and an ETag made of the length of the body. The
    requests that are fresh below send [If-None-Match: *], which matches
    whatever tag the response has. *)
#[local] Existing Instance sample_runtime.

(** ** Serialisation *)

(** The two error bodies as they go out: the braces, the quoted key, the
    colon and the quoted message (34 is the double quote). *)
Example missing_query_text :
  http_body missing_query_response
  = js "{" ++ [34] ++ js "error" ++ [34] ++ js ":" ++ [34]
    ++ js "Missing query parameter" ++ [34] ++ js "}".
Proof. reflexivity. Qed.

Example fetch_error_text :
  http_body fetch_error_response
  = js "{" ++ [34] ++ js "error" ++ [34] ++ js ":" ++ [34]
    ++ js "Error fetching data" ++ [34] ++ js "}".
Proof. reflexivity. Qed.

Example batman_text :
  JSON_stringify batman_doc
  = js "{" ++ [34] ++ js "results" ++ [34] ++ js ":[{" ++ [34] ++ js "id"
    ++ [34] ++ js ":1," ++ [34] ++ js "title" ++ [34] ++ js ":" ++ [34]
    ++ js "Batman" ++ [34] ++ js "}]}".
Proof. vm_compute. reflexivity. Qed.

(** Number::toString: integers, fractions, and where the exponent form
    starts. *)
Example stringify_numbers :
  JSON_stringify
    (VArray [VNumber (Number_of_Z 3000);
             VNumber (S754_finite true 6755399441055744 (-52));
             VNumber (S754_finite false 7205759403792794 (-56));
             VNumber (S754_finite false 5404319552844596 (-54));
             VNumber (Number_of_Z (10 ^ 21));
             VNumber (S754_finite false 7555786372591432 (-76));
             VNumber (S754_finite false 1 (-1074))])
  = js "[3000,-1.5,0.1,0.30000000000000004,1e+21,1e-7,5e-324]".
Proof. vm_compute. reflexivity. Qed.

(** Strings: the quote, the backslash and the control characters are
    escaped, a lone surrogate is written as its escape, a surrogate pair
    stays. *)
Example stringify_string :
  JSON_stringify (VString [0x22; 0x5C; 0x0A; 0x01; 0xD800; 0x41; 0xD83D; 0xDE00])
  = [34; 92; 34; 92; 92] ++ js "\n\u0001\ud800A" ++ [0xD83D; 0xDE00; 34].
Proof. vm_compute. reflexivity. Qed.

(** ** Validation *)

Lemma missing_query_400_witness :
  (req_query request_without !! js "query" = None
   \/ req_query request_without !! js "query" = Some (QString []))
  /\ (app request_without (world_with upstream_unreachable)).1 = Return tt
  /\ (exists r,
        wire (app request_without (world_with upstream_unreachable)).2
        = wire (world_with upstream_unreachable) ++ [r]
        /\ http_status r = 400%Z
        /\ http_body r
           = JSON_stringify
               (VObject [(js "error", VString (js "Missing query parameter"))]))
  /\ outbound (app request_without (world_with upstream_unreachable)).2
     = outbound (world_with upstream_unreachable).
Proof.
  split; [left; reflexivity|].
  apply (missing_query_400 request_without (world_with upstream_unreachable)).
  left; reflexivity.
Defined.

(** A conditional request without [query] is answered 400 all the same:
    only a 2xx status can become a 304. *)
Example conditional_missing_query :
  wire (app (if_none_match_any request_without)
            (world_with upstream_unreachable)).2
  = [missing_query_response].
Proof. reflexivity. Qed.

(** ** Relay *)



(** C2 fails as stated in the body as well: what goes out is the text
    [JSON.stringify] makes of the decoded document, and two documents
    that differ, one with a number beyond the binary64 range (decoded as
    infinity) and one with [null] in its place, are answered with the
    same text. *)
Example overflow_relayed_as_null :
  let req := request_with (QString (js "batman")) in
  let sent := VObject [(js "x", VNumber (S754_infinity false))] in
  wire (app req (world_with (upstream_answers 200 sent))).2
  = [ok_response (VObject [(js "x", VNull)])]
  /\ http_body (ok_response sent)
     = js "{" ++ [34] ++ js "x" ++ [34] ++ js ":null}".
Proof. split; reflexivity. Qed.

Example negative_zero_relayed_as_zero :
  let req := request_with (QString (js "batman")) in
  wire (app req (world_with (upstream_answers 200
                               (VArray [VNumber (S754_zero true)])))).2
  = [{| http_status := 200; http_headers := cors_headers;
        http_body := js "[0]" |}].
Proof. reflexivity. Qed.

Lemma upstream_failure_500_witness :
  let req := request_with (QString (js "test")) in
  let w := world_with upstream_unreachable in
  (app req w).1 = Return tt
  /\ (exists r,
        wire (app req w).2 = wire w ++ [r]
        /\ http_status r = 500%Z
        /\ http_body r
           = JSON_stringify
               (VObject [(js "error", VString (js "Error fetching data"))]))
  /\ outbound (app req w).2
     = outbound w ++ [tmdb_search default_key (js "test")].
Proof.
  intros req w.
  apply (upstream_failure_500 req w (tmdb_search default_key (js "test"))
           FetchError); [reflexivity | reflexivity | left; reflexivity].
Defined.

(** The same with a body that is not JSON. *)
Example not_json_500 :
  wire (app (request_with (QString (js "test")))
            (world_with upstream_not_json)).2
  = [fetch_error_response].
Proof. reflexivity. Qed.

(** ** Cross-origin header *)

Example cors_on_each_status :
  Forall
    (fun r => http_headers r !! "Access-Control-Allow-Origin" = Some "*")
    [ok_response batman_doc; missing_query_response; fetch_error_response;
     not_modified_response].
Proof. repeat constructor. Qed.

(** ** The outbound call *)

Lemma outbound_url_witness :
  let req := request_with (QString (js "the matrix")) in
  let w := world_with upstream_unreachable in
  outbound (app req w).2
  = [js "https://api.themoviedb.org/3/search/movie?api_key=f81af962f969df1a8bebbb9f6b7f17b7&query=the%20matrix"].
Proof.
  intros req w.
  apply (outbound_url req w (QString (js "the matrix"))); reflexivity.
Defined.

(** ** Startup *)

Example startup_configured :
  startup {[ js "TMDB_API_KEY" := js "abc123"; js "PORT" := js "8080" ]}
  = {| TMDB_API_KEY := js "abc123"; PORT := VString (js "8080") |}.
Proof. reflexivity. Qed.

Example startup_empty_values :
  startup {[ js "TMDB_API_KEY" := []; js "PORT" := [] ]}
  = {| TMDB_API_KEY := default_key; PORT := VNumber (Number_of_Z 3000) |}.
Proof. reflexivity. Qed.

Example port_3000_binary64 :
  PORT (startup ∅) = VNumber (S754_finite false 6597069766656000 (-41)).
Proof. reflexivity. Qed.

(** ** Determinism and statelessness *)

Lemma relay_deterministic_witness :
  let req := request_with (QString (js "batman")) in
  let w1 := world_with (upstream_answers 200 batman_doc) in
  let w2 := (app req w1).2 in
  ((app req w1).1 = (app req w2).1
   /\ exists rs,
        wire (app req w1).2 = wire w1 ++ rs
        /\ wire (app req w2).2 = wire w2 ++ rs)
  /\ (service (app req w1).2 = service w1
      /\ upstream (app req w1).2 = upstream w1)
  /\ forall later : Request,
       (app later (app req w1).2).1 = (app later w1).1
       /\ exists rs,
            wire (app later (app req w1).2).2 = wire (app req w1).2 ++ rs
            /\ wire (app later w1).2 = wire w1 ++ rs.
Proof.
  intros req w1 w2.
  apply (relay_deterministic req w1 w2); reflexivity.
Defined.

(** The same request twice in a row: the second answer repeats the
    first. *)
Example batman_twice :
  let req := request_with (QString (js "batman")) in
  let w := world_with (upstream_answers 200 batman_doc) in
  wire (app req (app req w).2).2
  = [ok_response batman_doc; ok_response batman_doc].
Proof. reflexivity. Qed.

(** ** One response per request *)

Lemma one_response_when_upstream_settles_witness :
  let req := request_with (QString (js "batman")) in
  let w := world_with (upstream_answers 200 batman_doc) in
  settles req w
  /\ (app req w).1 = Return tt
  /\ exists r, wire (app req w).2 = wire w ++ [r] /\ route_response r.
Proof.
  intros req w.
  assert (settles req w) as Hsettles by (intros url _ _; simpl; discriminate).
  split; [exact Hsettles|].
  apply (one_response_when_upstream_settles req w). exact Hsettles.
Defined.

(** C8 fails as stated: with an upstream that never answers, the handler
    stays at its [await] and the request gets no response at all. *)
Lemma silent_upstream_no_response :
  let req := request_with (QString (js "test")) in
  let w := world_with upstream_silent in
  (app req w).1 = Suspended
  /\ wire (app req w).2 = wire w
  /\ ~ exists r, wire (app req w).2 = wire w ++ [r].
Proof.
  intros req w. split; [reflexivity|]. split; [reflexivity|].
  intros [r Hr]. discriminate Hr.
Qed.

(** And the shapes are four, not three: the answer to a fresh conditional
    request is none of the 200, the 400 and the 500. *)
Example not_modified_fourth_shape :
  let req := if_none_match_any (request_with (QString (js "batman"))) in
  let w := world_with (upstream_answers 200 batman_doc) in
  wire (app req w).2 = [not_modified_response]
  /\ not_modified_response <> missing_query_response
  /\ not_modified_response <> fetch_error_response
  /\ forall data, not_modified_response <> ok_response data.
Proof.
  intros req w. split; [reflexivity|].
  split; [discriminate|]. split; [discriminate|].
  intros data. discriminate.
Qed.

(** ** The upstream's status code *)

Lemma upstream_status_ignored_witness :
  let req := request_with (QString (js "batman")) in
  let w := world_with (upstream_answers 401 invalid_key_doc) in
  exists r,
    wire (app req w).2 = wire w ++ [r]
    /\ (http_status r = 200%Z /\ http_body r = JSON_stringify invalid_key_doc)
    /\ http_status r <> 500%Z
    /\ (req_headers req !! "if-none-match" = None ->
        req_headers req !! "if-modified-since" = None ->
        http_status r = 200%Z /\ http_body r = JSON_stringify invalid_key_doc).
Proof.
  intros req w.
  apply (upstream_status_ignored req w
           (tmdb_search default_key (js "batman")) 401 invalid_key_doc);
    reflexivity.
Defined.

(** C9 fails as stated: the upstream answers 401 with a JSON document,
    and the request, sent with [If-None-Match: *], is answered 304
    without a body, neither 200 nor the 500. *)
Lemma upstream_401_answered_304 :
  let req := if_none_match_any (request_with (QString (js "batman"))) in
  let w := world_with (upstream_answers 401 invalid_key_doc) in
  ToBoolean (req_query req !! js "query") = true
  /\ upstream w (tmdb_search default_key (js "batman"))
     = Fulfilled {| Response_status := 401;
                    Response_json := Fulfilled invalid_key_doc |}
  /\ (exists r,
        wire (app req w).2 = wire w ++ [r]
        /\ http_status r = 304%Z /\ http_body r = [])
  /\ ~ exists r,
         wire (app req w).2 = wire w ++ [r] /\ http_status r = 200%Z.
Proof.
  intros req w. split; [reflexivity|]. split; [reflexivity|].
  assert (wire (app req w).2 = wire w ++ [not_modified_response]) as Hwire
    by reflexivity.
  split.
  - exists not_modified_response. split; [exact Hwire|]. split; reflexivity.
  - intros (r & Hr & Hst). rewrite Hwire in Hr.
    apply app_inv_head in Hr. injection Hr as <-. discriminate Hst.
Qed.

(** ** Arrays and objects in [query] *)

Lemma arrays_and_objects_accepted_witness :
  let v := QArray [QString (js "a"); QString (js "b")] in
  let req := request_with v in
  let w := world_with upstream_unreachable in
  ToBoolean (Some v) = true
  /\ (exists rs,
        wire (app req w).2 = wire w ++ rs
        /\ Forall (fun r => http_status r <> 400%Z) rs)
  /\ outbound (app req w).2
     = outbound w ++ [tmdb_search (TMDB_API_KEY (service w)) (js "a%2Cb")]
  /\ (forall e,
        encodeURIComponent (Some v) = inl e ->
        wire (app req w).2 = wire w ++ [fetch_error_response])
  /\ (forall ss, v = QArray (QString <$> ss) -> ToString v = inr (comma_join ss)).
Proof.
  intros v req w.
  apply (arrays_and_objects_accepted req w v);
    [reflexivity | left; by eexists].
Defined.

(** C10 fails as stated: [?query[toString]=x] parses to an object with
    its own [toString], which is not a function. Validation passes, but
    the coercion throws inside the [try]: the value does not reach the
    upstream URL, no call goes out, and the answer is the 500. *)
Lemma own_toString_not_coerced :
  let v := QObject {[ js "toString" := QString (js "x") ]} in
  let req := request_with v in
  let w := world_with (upstream_answers 200 batman_doc) in
  ToBoolean (Some v) = true
  /\ encodeURIComponent (Some v) = inl TypeError
  /\ outbound (app req w).2 = []
  /\ wire (app req w).2 = [fetch_error_response]
  /\ ~ exists encoded,
         outbound (app req w).2
         = outbound w ++ [tmdb_search (TMDB_API_KEY (service w)) encoded].
Proof.
  intros v req w. split; [reflexivity|]. split; [reflexivity|].
  split; [reflexivity|]. split; [reflexivity|].
  intros (encoded & Hout).
  change (outbound (app req w).2) with (@nil jsstring) in Hout.
  discriminate Hout.
Qed.

(** [?query=a&query=b] and [?query[x]=y] *)
Example repeated_parameter :
  outbound (app (request_with (QArray [QString (js "a"); QString (js "b")]))
                (world_with upstream_unreachable)).2
  = [tmdb_search default_key (js "a%2Cb")].
Proof. reflexivity. Qed.

Example nested_parameter :
  outbound (app (request_with (QObject {[ js "x" := QString (js "y") ]}))
                (world_with upstream_unreachable)).2
  = [tmdb_search default_key (js "%5Bobject%20Object%5D")].
Proof. reflexivity. Qed.

(** ** Further properties *)

Lemma coercion_failure_500_witness :
  let req := request_with (QString [0x61; 0xD83D]) in
  let w := world_with (upstream_answers 200 batman_doc) in
  (app req w).1 = Return tt
  /\ wire (app req w).2
     = wire w ++
       [{| http_status := 500; http_headers := cors_headers;
           http_body :=
             JSON_stringify
               (VObject [(js "error", VString (js "Error fetching data"))]) |}]
  /\ outbound (app req w).2 = outbound w.
Proof.
  intros req w. apply (coercion_failure_500 req w URIError); reflexivity.
Defined.

Lemma status_400_iff_missing_witness :
  let req := request_with (QString []) in
  let w := world_with upstream_unreachable in
  exists r, wire (app req w).2 = wire w ++ [r] /\ http_status r = 400%Z.
Proof.
  intros req w.
  apply (proj2 (status_400_iff_missing req w)). right; reflexivity.
Defined.

Lemma status_200_only_relay_witness :
  let req := request_with (QString (js "batman")) in
  let w := world_with (upstream_answers 200 batman_doc) in
  exists url response data,
    search_url (TMDB_API_KEY (service w)) (req_query req !! js "query")
    = inr url
    /\ upstream w url = Fulfilled response
    /\ Response_json response = Fulfilled data
    /\ fresh_for req data = false
    /\ http_body (ok_response batman_doc) = JSON_stringify data
    /\ outbound (app req w).2 = outbound w ++ [url].
Proof.
  intros req w.
  apply (status_200_only_relay req w (ok_response batman_doc)); reflexivity.
Defined.

Lemma status_500_only_failure_witness :
  let req := request_with (QString (js "test")) in
  let w := world_with upstream_not_json in
  let r := fetch_error_response in
  r = fetch_error_response
  /\ ToBoolean (req_query req !! js "query") = true
  /\ ((exists e,
         search_url (TMDB_API_KEY (service w)) (req_query req !! js "query")
         = inl e)
      \/ exists url e,
           search_url (TMDB_API_KEY (service w)) (req_query req !! js "query")
           = inr url
           /\ (upstream w url = Rejected e
               \/ exists response,
                    upstream w url = Fulfilled response
                    /\ Response_json response = Rejected e)).
Proof.
  intros req w r.
  apply (status_500_only_failure req w r); reflexivity.
Defined.

Lemma status_304_only_fresh_witness :
  let req := if_none_match_any (request_with (QString (js "batman"))) in
  let w := world_with (upstream_answers 200 batman_doc) in
  let r := not_modified_response in
  (http_body r = []
   /\ http_headers r !! "Content-Type" = None
   /\ http_headers r !! "Access-Control-Allow-Origin" = Some "*")
  /\ (req_headers req !! "if-none-match" <> None
      \/ req_headers req !! "if-modified-since" <> None)
  /\ exists url response data,
       search_url (TMDB_API_KEY (service w)) (req_query req !! js "query")
       = inr url
       /\ upstream w url = Fulfilled response
       /\ Response_json response = Fulfilled data
       /\ fresh_for req data = true
       /\ outbound (app req w).2 = outbound w ++ [url].
Proof.
  intros req w r.
  apply (status_304_only_fresh req w r); reflexivity.
Defined.

(** A tag that does not match leaves the request stale, and
    [Cache-Control: no-cache] does so whatever the tag. *)
Example stale_conditional_requests :
  let w := world_with (upstream_answers 200 batman_doc) in
  let tagged (hs : gmap string string) :=
    {| req_query := {[ js "query" := QString (js "batman") ]};
       req_headers := hs |} in
  wire (app (tagged {[ "if-none-match" := "W/x" ]}) w).2
  = [ok_response batman_doc]
  /\ wire (app (tagged {[ "if-none-match" := "*";
                           "cache-control" := "no-cache" ]}) w).2
     = [ok_response batman_doc]
  /\ wire (app (tagged {[ "if-none-match" := etag_fn (JSON_stringify batman_doc) ]})
               w).2
     = [not_modified_response].
Proof. split; [|split]; vm_compute; reflexivity. Qed.

Lemma other_parameters_ignored_witness :
  let req1 := {| req_query := {[ js "query" := QString (js "batman");
                                 js "page" := QString (js "2") ]};
                 req_headers := ∅ |} in
  let req2 := request_with (QString (js "batman")) in
  let w := world_with (upstream_answers 200 batman_doc) in
  app req1 w = app req2 w.
Proof.
  intros req1 req2 w. apply (other_parameters_ignored req1 req2 w);
    reflexivity.
Defined.

(** The headers are part of what a run depends on: the same query with
    and without [If-None-Match: *]. *)
Example conditional_request_differs :
  let w := world_with (upstream_answers 200 batman_doc) in
  let req := request_with (QString (js "batman")) in
  req_query (if_none_match_any req) = req_query req
  /\ wire (app req w).2 = [ok_response batman_doc]
  /\ wire (app (if_none_match_any req) w).2 = [not_modified_response].
Proof. repeat split. Qed.

Lemma array_as_joined_string_witness :
  let w := world_with (upstream_answers 200 batman_doc) in
  app (request_with (QArray [QString (js "a"); QString (js "b")])) w
  = app (request_with (QString (js "a,b"))) w.
Proof.
  intros w.
  apply (array_as_joined_string _ _ w [js "a"; js "b"]);
    [reflexivity | reflexivity | reflexivity | discriminate].
Defined.

(** Without the proviso the two differ: the array with one empty string
    passes validation, the empty string does not. *)
Example empty_array_element :
  let w := world_with upstream_unreachable in
  http_status <$> wire (app (request_with (QArray [QString []])) w).2 = [500%Z]
  /\ http_status <$> wire (app (request_with (QString [])) w).2 = [400%Z].
Proof. split; reflexivity. Qed.

Lemma query_component_safe_witness :
  let v := QString (js "a&api_key=x#") in
  let req := request_with v in
  let w := world_with upstream_unreachable in
  exists calls,
    outbound (app req w).2 = outbound w ++ calls
    /\ Forall
         (fun url =>
            exists encoded,
              url = tmdb_search (TMDB_API_KEY (service w)) encoded
              /\ Forall url_safe encoded
              /\ forall c, c ∈ js "&=#?/+ " -> c ∉ encoded)
         calls.
Proof.
  intros v req w.
  apply (query_component_safe req w v (js "a&api_key=x#"));
    [reflexivity | reflexivity | reflexivity |].
  unfold code_units_ok. repeat constructor.
Defined.

Example injection_attempt :
  outbound (app (request_with (QString (js "a&api_key=x#")))
                (world_with upstream_unreachable)).2
  = [tmdb_search default_key (js "a%26api_key%3Dx%23")].
Proof. reflexivity. Qed.

Lemma search_url_injective_witness :
  tmdb_search default_key (js "a%20b")
  <> tmdb_search default_key (js "a%2520b").
Proof.
  apply (search_url_injective default_key (js "a b") (js "a%20b"));
    [unfold code_units_ok; repeat constructor
    |unfold code_units_ok; repeat constructor
    |reflexivity | reflexivity | discriminate].
Defined.

(** Escaping keeps apart what the raw strings would confuse. *)
Example percent_is_escaped :
  URI.Encode (js "a b") = inr (js "a%20b")
  /\ URI.Encode (js "a%20b") = inr (js "a%2520b").
Proof. split; reflexivity. Qed.

Lemma plain_query_verbatim_witness :
  let req := request_with (QString (js "Blade_Runner-2049")) in
  let w := world_with upstream_unreachable in
  outbound (app req w).2
  = outbound w ++
    [js "https://api.themoviedb.org/3/search/movie?api_key="
     ++ TMDB_API_KEY (service w) ++ js "&query=" ++ js "Blade_Runner-2049"].
Proof.
  intros req w.
  apply (plain_query_verbatim req w (js "Blade_Runner-2049"));
    [reflexivity | discriminate | repeat constructor].
Defined.

Lemma array_query_component_witness :
  let req := request_with (QArray (QString <$> [js "iron man"; js "2"])) in
  let w := world_with upstream_unreachable in
  outbound (app req w).2
  = outbound w ++
    [tmdb_search (TMDB_API_KEY (service w))
       (join_with (js "%2C") [js "iron%20man"; js "2"])].
Proof.
  intros req w.
  apply (array_query_component req w [js "iron man"; js "2"]
           [js "iron%20man"; js "2"]); [reflexivity|].
  repeat constructor.
Defined.

Lemma search_url_length_witness :
  (57 + length default_key + length [0x20AC]
   <= length (tmdb_search default_key (js "%E2%82%AC"))
   <= 57 + length default_key + 9 * length [0x20AC])%nat.
Proof.
  apply (search_url_length default_key [0x20AC]
           (tmdb_search default_key (js "%E2%82%AC")));
    [unfold code_units_ok; repeat constructor | reflexivity].
Defined.

Lemma surrogate_free_query_forwarded_witness :
  let req := request_with (QString [0x41; 0xE9; 0x20AC]) in
  let w := world_with upstream_unreachable in
  exists encoded,
    URI.Encode [0x41; 0xE9; 0x20AC] = inr encoded
    /\ outbound (app req w).2
       = outbound w ++ [tmdb_search (TMDB_API_KEY (service w)) encoded].
Proof.
  intros req w.
  apply (surrogate_free_query_forwarded req w [0x41; 0xE9; 0x20AC]);
    [reflexivity | discriminate | by repeat constructor].
Defined.
